(** * Notification service: cascading delivery and the retry pipeline

    A shallow embedding of [src/models/schemas.py], [src/models/orm.py],
    [src/services/notification.py], [src/services/retry.py], the providers
    and the POST and GET routes of [src/api/routes.py], with the
    properties of the delivery engine and of the retry consumer stated
    over it.

    Conventions of the embedding.
    - A Python [str] is a [string], one character per code point.
    - A UUID is a number [N], and [str(uuid)] is the identity on
      identifiers.  The [Uuid] column is looked up with [uuid.UUID]
      objects; handed a [str], the lookup raises when the SQLite backend
      binds the parameter.
    - Time is a logical clock [now]: every await on the outside world
      (a provider send, a Redis command, a sleep) advances it, and
      [datetime.utcnow()] reads it.
    - What the outside world answers is a function of the clock: a
      provider's [send] and the Redis client's availability take the
      instant of the call, so two calls with the same arguments may be
      answered differently.
    - The SQL store is taken to be available: [commit] does not raise,
      and, as with the default SQLite backend, the declared lengths of
      [String(n)] columns are not enforced.  Provider and Redis failures
      are modelled.
    - A relationship that was not loaded with its object is not loaded
      later: reading it under the [AsyncSession] raises.
    - A stream entry holds the payload dict itself: [json.dumps] followed
      by [json.loads] is the identity on it. *)

From stdpp Require Import gmap strings list fin_maps.
From Stdlib Require Import ZArith.

Open Scope string_scope.
Open Scope list_scope.

(** ** [src/models/schemas.py]: the enumerations *)

Inductive DeliveryChannel := EMAIL | SMS | TELEGRAM.

Inductive NotificationStatus := PENDING | SENT | FAILED.

(** [DeliveryChannel.X.value] *)
Definition channel_value (c : DeliveryChannel) : string :=
  match c with
  | EMAIL => "email"
  | SMS => "sms"
  | TELEGRAM => "telegram"
  end.

(** [NotificationStatus.X.value] *)
Definition status_value (s : NotificationStatus) : string :=
  match s with
  | PENDING => "pending"
  | SENT => "sent"
  | FAILED => "failed"
  end.

(** [DeliveryChannel(ch)]: the member with that value, [None] where
    Python raises [ValueError]. *)
Definition DeliveryChannel_of_value (s : string) : option DeliveryChannel :=
  if String.eqb s "email" then Some EMAIL
  else if String.eqb s "sms" then Some SMS
  else if String.eqb s "telegram" then Some TELEGRAM
  else None.

(** [NotificationCreate]: a request body that passed validation. *)
Module schemas.

Record NotificationCreate := mkCreate {
  recipient : string;
  message : string;
  channels : list DeliveryChannel;
  metadata : list (string * string)
}.

End schemas.

(** The JSON body of a POST, its fields of the declared JSON types;
    [None] is a field left out. *)
Record CreateBody := mkBody {
  body_recipient : string;
  body_message : string;
  body_channels : option (list string);
  body_metadata : option (list (string * string))
}.

(** Validation of a body against the [Field] constraints of
    [NotificationCreate]: [message] has [min_length=1] and
    [max_length=10000]; [channels] defaults to the three channels, holds
    enumeration values only and has [min_length=1]; [recipient] carries no
    constraint; [metadata] defaults to the empty dict.  [None] is a
    validation error. *)
Definition validate (body : CreateBody) : option schemas.NotificationCreate :=
  if (1 <=? Z.of_nat (String.length (body_message body)))%Z
     && (Z.of_nat (String.length (body_message body)) <=? 10000)%Z
  then
    match body_channels body with
    | None =>
        Some (schemas.mkCreate (body_recipient body) (body_message body)
                [EMAIL; SMS; TELEGRAM] (default [] (body_metadata body)))
    | Some tags =>
        match mapM DeliveryChannel_of_value tags with
        | Some channels =>
            if (1 <=? Z.of_nat (length channels))%Z
            then Some (schemas.mkCreate (body_recipient body) (body_message body)
                         channels (default [] (body_metadata body)))
            else None
        | None => None
        end
    end
  else None.

#[global] Instance DeliveryChannel_eq_dec : EqDecision DeliveryChannel.
Proof. solve_decision. Defined.

Definition channel_code (c : DeliveryChannel) : nat :=
  match c with EMAIL => 0 | SMS => 1 | TELEGRAM => 2 end.

Definition channel_decode (k : nat) : option DeliveryChannel :=
  match k with
  | 0 => Some EMAIL
  | 1 => Some SMS
  | 2 => Some TELEGRAM
  | _ => None
  end.

#[global] Instance DeliveryChannel_countable : Countable DeliveryChannel.
Proof.
  apply (inj_countable channel_code channel_decode).
  intros []; reflexivity.
Defined.

(** ** [src/models/orm.py]: the two tables *)

Abbreviation uuid := N (only parsing).
Abbreviation datetime := nat (only parsing).
Abbreviation json_dict := (list (string * string)) (only parsing).

Record NotificationORM := mkNotification {
  id : uuid;
  recipient : string;
  message : string;
  status : string;
  channel_used : option string;
  metadata : json_dict;
  created_at : datetime;
  updated_at : datetime
}.

(** Rows of [notification_attempts] are kept in insertion order; the
    autoincrement key of a row is its position. *)
Record NotificationAttempt := mkAttempt {
  notification_id : uuid;
  channel : string;
  timestamp : datetime;
  success : bool;
  error_message : option string
}.

#[global] Instance NotificationORM_eq_dec : EqDecision NotificationORM.
Proof. solve_decision. Defined.

#[global] Instance NotificationAttempt_eq_dec : EqDecision NotificationAttempt.
Proof. solve_decision. Defined.

(** The payload of a stream entry: the dict that [json.dumps] writes under
    the key [payload] and [json.loads] reads back. *)
Record RetryPayload := mkPayload {
  payload_notification_id : uuid;
  payload_channels : list string;
  payload_attempt : Z
}.

#[global] Instance RetryPayload_eq_dec : EqDecision RetryPayload.
Proof. solve_decision. Defined.

(** ** The world the service runs in *)

(** One provider invocation, as seen from outside: channel name,
    recipient, body. *)
Definition provider_call := (string * string * string)%type.

Record World := mkWorld {
  notifications : gmap N NotificationORM;  (* table notifications, by primary key *)
  attempts : list NotificationAttempt;     (* table notification_attempts *)
  stream : list RetryPayload;              (* the Redis stream; entry id = position *)
  delivered : nat;                         (* entries handed to the consumer group *)
  pending : list nat;                      (* delivered and not yet acknowledged *)
  calls : list provider_call;              (* trace of provider invocations *)
  now : nat                                (* logical clock *)
}.

Definition empty_world : World :=
  mkWorld ∅ [] [] 0 [] [] 0.

Definition set_notifications (m : gmap N NotificationORM) (w : World) : World :=
  mkWorld m (attempts w) (stream w) (delivered w) (pending w) (calls w) (now w).

Definition set_attempts (l : list NotificationAttempt) (w : World) : World :=
  mkWorld (notifications w) l (stream w) (delivered w) (pending w) (calls w) (now w).

Definition set_stream (l : list RetryPayload) (w : World) : World :=
  mkWorld (notifications w) (attempts w) l (delivered w) (pending w) (calls w) (now w).

Definition set_group (d : nat) (p : list nat) (w : World) : World :=
  mkWorld (notifications w) (attempts w) (stream w) d p (calls w) (now w).

Definition set_calls (l : list provider_call) (w : World) : World :=
  mkWorld (notifications w) (attempts w) (stream w) (delivered w) (pending w) l (now w).

Definition tick (k : nat) (w : World) : World :=
  mkWorld (notifications w) (attempts w) (stream w) (delivered w) (pending w)
          (calls w) (k + now w).

(** ** Exceptions and the monad of the service code *)

Inductive exn :=
  | ProviderError (msg : string)   (* whatever a provider's send raises *)
  | RedisError                     (* a Redis command failed *)
  | IntegrityError                 (* primary key already present *)
  | ValueError                     (* DeliveryChannel(ch) on an unknown tag *)
  | OverflowError                  (* the float power of the backoff *)
  | StatementError                 (* a str bound to the Uuid column *)
  | MissingGreenlet.               (* a lazy load under the AsyncSession *)

(** [str(e)] *)
Definition str_exn (e : exn) : string :=
  match e with
  | ProviderError msg => msg
  | RedisError => "redis error"
  | IntegrityError => "integrity error"
  | ValueError => "not a valid DeliveryChannel"
  | OverflowError => "numerical result out of range"
  | StatementError => "'str' object has no attribute 'hex'"
  | MissingGreenlet => "greenlet_spawn has not been called"
  end.

Inductive result (A : Type) :=
  | Ok (a : A)
  | Raise (e : exn).

Arguments Ok {A} a.
Arguments Raise {A} e.

(** A computation changes the world and returns or raises; what it did to
    the world before raising stays done. *)
Definition M (A : Type) : Type := World → result A * World.

Definition ret {A} (a : A) : M A := λ w, (Ok a, w).

Definition raise {A} (e : exn) : M A := λ w, (Raise e, w).

Definition bind {A B} (m : M A) (f : A → M B) : M B :=
  λ w, match m w with
       | (Ok a, w') => f a w'
       | (Raise e, w') => (Raise e, w')
       end.

(** [try: m  except Exception as e: h e] *)
Definition try_except {A} (m : M A) (h : exn → M A) : M A :=
  λ w, match m w with
       | (Ok a, w') => (Ok a, w')
       | (Raise e, w') => h e w'
       end.

Definition get {A} (f : World → A) : M A := λ w, (Ok (f w), w).

Definition modify (f : World → World) : M unit := λ w, (Ok tt, f w).

#[global] Instance M_ret : MRet M := @ret.
#[global] Instance M_bind : MBind M := λ A B f m, bind m f.

(** ** Collaborators of the service *)

(** [INotificationProvider]: [send] returns ([None]) or raises with a
    message ([Some msg]), depending on the instant of the call. *)
Record INotificationProvider := mkProvider {
  channel_name : string;
  send : string → string → nat → option string
}.

(** The Redis client: whether the server answers at a given instant. *)
Record Redis := mkRedis {
  answers : nat → bool
}.

(** The attributes of a [NotificationService]; its [db] session is the
    store held by the world. *)
Record NotificationService := mkService {
  redis : Redis;
  providers : gmap DeliveryChannel INotificationProvider
}.

(** [src/config.py], the settings the core reads.  The float power
    [retry_backoff_base ** (attempt - 1)] is a parameter:
    [retry_backoff attempt] is the delay in clock ticks, or [None] where
    the power overflows. *)
Record Settings := mkSettings {
  max_retry_attempts : Z;
  retry_backoff : Z → option nat;
  smtp_host : string;
  smtp_user : string;
  smtp_password : string;
  twilio_account_sid : string;
  twilio_auth_token : string;
  twilio_from_number : string;
  telegram_bot_token : string
}.

(** [bool(s)] for a string *)
Definition truthy (s : string) : bool := negb (String.eqb s "").

Definition is_smtp_configured (st : Settings) : bool :=
  truthy (smtp_host st) && truthy (smtp_user st) && truthy (smtp_password st).

Definition is_twilio_configured (st : Settings) : bool :=
  truthy (twilio_account_sid st) && truthy (twilio_auth_token st)
  && truthy (twilio_from_number st).

Definition is_telegram_configured (st : Settings) : bool :=
  truthy (telegram_bot_token st).

(** What the three remote services answer to a send at a given instant:
    [None] when the exchange goes through, [Some msg] when it raises. *)
Record Network := mkNetwork {
  smtp : string → string → nat → option string;
  twilio : string → string → nat → option string;
  telegram : string → string → nat → option string
}.

(** [src/services/providers/]: each provider succeeds without I/O when its
    credentials are not configured, and otherwise re-raises what the
    exchange raised. *)
Definition EmailProvider (st : Settings) (net : Network) : INotificationProvider :=
  mkProvider "email"
    (λ r m t, if is_smtp_configured st then smtp net r m t else None).

Definition SMSProvider (st : Settings) (net : Network) : INotificationProvider :=
  mkProvider "sms"
    (λ r m t, if is_twilio_configured st then twilio net r m t else None).

Definition TelegramProvider (st : Settings) (net : Network) : INotificationProvider :=
  mkProvider "telegram"
    (λ r m t, if is_telegram_configured st then telegram net r m t else None).

(** [await provider.send(recipient, message)] *)
Definition provider_send (p : INotificationProvider) (r m : string) : M unit :=
  λ w,
    let w' := tick 1 (set_calls (calls w ++ [(channel_name p, r, m)]) w) in
    match send p r m (now w) with
    | None => (Ok tt, w')
    | Some msg => (Raise (ProviderError msg), w')
    end.

(** [await self.redis.xadd(settings.redis_stream_name, {"payload": json.dumps(p)})] *)
Definition xadd (r : Redis) (p : RetryPayload) : M unit :=
  λ w,
    if answers r (now w)
    then (Ok tt, tick 1 (set_stream (stream w ++ [p]) w))
    else (Raise RedisError, tick 1 w).

(** [datetime.utcnow()] *)
Definition utcnow : M datetime := get now.

(** [self.db.add(attempt)], flushed by the commit that follows. *)
Definition db_add_attempt (a : NotificationAttempt) : M unit :=
  modify (λ w, set_attempts (attempts w ++ [a]) w).

(** Assignments to the mapped attributes of a loaded notification. *)
Definition with_status (s : string) (n : NotificationORM) : NotificationORM :=
  mkNotification (id n) (recipient n) (message n) s (channel_used n)
                 (metadata n) (created_at n) (updated_at n).

Definition with_channel_used (c : option string) (n : NotificationORM) : NotificationORM :=
  mkNotification (id n) (recipient n) (message n) (status n) c
                 (metadata n) (created_at n) (updated_at n).

Definition with_updated_at (t : datetime) (n : NotificationORM) : NotificationORM :=
  mkNotification (id n) (recipient n) (message n) (status n) (channel_used n)
                 (metadata n) (created_at n) t.

(** [await self.db.commit()] after assignments that took the loaded row
    [old] to [new]: an UPDATE is issued when a column changed, and then
    [onupdate=datetime.utcnow] stamps [updated_at].  Returns the object as
    it is after the flush. *)
Definition db_commit (old new : NotificationORM) : M NotificationORM :=
  λ w,
    if decide (old = new) then (Ok new, w)
    else
      let row := with_updated_at (now w) new in
      (Ok row, set_notifications (<[id row := row]> (notifications w)) w).

(** ** [src/services/notification.py] *)

Section service.

Variable settings : Settings.
Variable network : Network.

(** [NotificationService.__init__] *)
Definition NotificationService_init (redis_client : Redis) : NotificationService :=
  mkService redis_client
    (<[EMAIL := EmailProvider settings network]>
       (<[SMS := SMSProvider settings network]>
          (<[TELEGRAM := TelegramProvider settings network]> ∅))).

(** The [for channel in channels] loop of [_attempt_delivery].  [Some n']
    is the [return] inside the loop, with the notification as the success
    branch left it; [None] is the loop running to its end. *)
Fixpoint cascade (self : NotificationService) (notification : NotificationORM)
    (channels : list DeliveryChannel) : M (option NotificationORM) :=
  match channels with
  | [] => mret None
  | channel :: rest =>
      match providers self !! channel with
      | None =>
          (* logger.warning("Provider not found ..."); continue *)
          cascade self notification rest
      | Some provider =>
          try_except
            (provider_send provider (recipient notification) (message notification);;
             t ← utcnow;
             db_add_attempt
               (mkAttempt (id notification) (channel_value channel) t true None);;
             sent ← db_commit notification
                      (with_channel_used (Some (channel_value channel))
                         (with_status (status_value SENT) notification));
             mret (Some sent))
            (λ e,
               t ← utcnow;
               db_add_attempt
                 (mkAttempt (id notification) (channel_value channel) t false
                            (Some (str_exn e)));;
               (* commit; logger.warning; next channel *)
               cascade self notification rest)
      end
  end.

(** [_enqueue_retry] *)
Definition _enqueue_retry (self : NotificationService) (notification_id : uuid)
    (channels : list DeliveryChannel) : M unit :=
  xadd (redis self)
       (mkPayload notification_id (channel_value <$> channels) 1).

(** [_attempt_delivery]; returns the notification object as the call left
    it (Python mutates it in place and returns [None]). *)
Definition _attempt_delivery (self : NotificationService)
    (notification : NotificationORM) (channels : list DeliveryChannel)
    : M NotificationORM :=
  r ← cascade self notification channels;
  match r with
  | Some sent => mret sent
  | None =>
      failed ← db_commit notification
                 (with_status (status_value FAILED) notification);
      _enqueue_retry self (id failed) channels;;
      mret failed
  end.

(** [create_and_send]; [new_id] is the identifier [uuid.uuid4] draws. *)
Definition create_and_send (self : NotificationService) (new_id : uuid)
    (notification_data : schemas.NotificationCreate) : M NotificationORM :=
  t ← utcnow;
  rows ← get notifications;
  match rows !! new_id with
  | Some _ => raise IntegrityError
  | None =>
      let notification :=
        mkNotification new_id (schemas.recipient notification_data)
                       (schemas.message notification_data)
                       (status_value PENDING) None
                       (schemas.metadata notification_data) t t in
      modify (λ w, set_notifications (<[new_id := notification]> (notifications w)) w);;
      _attempt_delivery self notification (schemas.channels notification_data)
  end.

(** [get_notification] *)
Definition get_notification (notification_id : uuid) : M (option NotificationORM) :=
  rows ← get notifications;
  mret (rows !! notification_id).

(** [retry_notification] *)
Definition retry_notification (self : NotificationService)
    (notification_id : uuid) (channels : list DeliveryChannel) (attempt : Z)
    : M unit :=
  found ← get_notification notification_id;
  match found with
  | None => mret tt
  | Some notification =>
      if String.eqb (status notification) (status_value SENT) then mret tt
      else
        pending_again ← db_commit notification
                          (with_status (status_value PENDING) notification);
        after ← _attempt_delivery self pending_again channels;
        if String.eqb (status after) (status_value FAILED)
           && (attempt <? max_retry_attempts settings)%Z
        then
          xadd (redis self)
               (mkPayload notification_id (channel_value <$> channels) (attempt + 1))
        else mret tt
  end.

(** [get_notification] handed the [str] identifier of a payload: the
    statement compares the [Uuid] column with a [str], and executing it
    raises when the parameter is bound. *)
Definition get_notification_str (notification_id : uuid) : M (option NotificationORM) :=
  raise StatementError.

(** [retry_notification] from its second statement on, [found] being what
    the lookup returned. *)
Definition retry_found (self : NotificationService) (found : option NotificationORM)
    (notification_id : uuid) (channels : list DeliveryChannel) (attempt : Z)
    : M unit :=
  match found with
  | None => mret tt
  | Some notification =>
      if String.eqb (status notification) (status_value SENT) then mret tt
      else
        pending_again ← db_commit notification
                          (with_status (status_value PENDING) notification);
        after ← _attempt_delivery self pending_again channels;
        if String.eqb (status after) (status_value FAILED)
           && (attempt <? max_retry_attempts settings)%Z
        then
          xadd (redis self)
               (mkPayload notification_id (channel_value <$> channels) (attempt + 1))
        else mret tt
  end.

(** [retry_notification] as the worker calls it, with the [str]
    identifier of the payload where the signature has a [uuid.UUID]. *)
Definition retry_notification_str (self : NotificationService)
    (notification_id : uuid) (channels : list DeliveryChannel) (attempt : Z)
    : M unit :=
  found ← get_notification_str notification_id;
  retry_found self found notification_id channels attempt.

(** ** [src/services/retry.py] *)

(** [[DeliveryChannel(ch) for ch in payload["channels"]]] *)
Definition decode_channels (tags : list string) : M (list DeliveryChannel) :=
  match mapM DeliveryChannel_of_value tags with
  | Some channels => mret channels
  | None => raise ValueError
  end.

(** [delay = settings.retry_backoff_base ** (attempt - 1)] followed by
    [await asyncio.sleep(delay)] *)
Definition backoff_sleep (attempt : Z) : M unit :=
  match retry_backoff settings attempt with
  | Some delay => modify (tick (1 + delay))
  | None => raise OverflowError
  end.

(** [await redis_client.xack(stream_name, group, message_id)] *)
Definition xack (r : Redis) (message_id : nat) : M unit :=
  λ w,
    if answers r (now w)
    then (Ok tt,
          tick 1 (set_group (delivered w)
                    (filter (λ i, i ≠ message_id) (pending w)) w))
    else (Raise RedisError, tick 1 w).

(** [process_retry_message]: any exception is logged and the message is
    left unacknowledged.  [notification_id = payload["notification_id"]]
    is the [str] of the payload and goes to [retry_notification] as it
    is. *)
Definition process_retry_message (redis_client : Redis) (message_id : nat)
    (message_data : RetryPayload) : M unit :=
  try_except
    (channels ← decode_channels (payload_channels message_data);
     backoff_sleep (payload_attempt message_data);;
     retry_notification_str (NotificationService_init redis_client)
       (payload_notification_id message_data) channels
       (payload_attempt message_data);;
     xack redis_client message_id)
    (λ e, mret tt).

(** [await redis_client.xreadgroup(..., streams={name: ">"}, count=1)]: the
    next entry never delivered to the group, which becomes pending. *)
Definition xreadgroup (r : Redis) : M (option (nat * RetryPayload)) :=
  λ w,
    if answers r (now w)
    then match stream w !! delivered w with
         | Some entry =>
             (Ok (Some (delivered w, entry)),
              tick 1 (set_group (S (delivered w)) (pending w ++ [delivered w]) w))
         | None => (Ok None, tick 1 w)
         end
    else (Raise RedisError, tick 1 w).

(** One turn of the [while] loop of [retry_worker]. *)
Definition retry_worker_turn (redis_client : Redis) : M unit :=
  try_except
    (messages ← xreadgroup redis_client;
     match messages with
     | None => mret tt
     | Some (message_id, message_data) =>
         process_retry_message redis_client message_id message_data
     end)
    (λ e, modify (tick 1)).

(** ** [src/api/routes.py]: POST /api/v1/notifications *)

(** The rows the [attempts] relationship of a notification loads. *)
Definition attempts_of (notification_id0 : uuid) (w : World) : list NotificationAttempt :=
  filter (λ a, notification_id a = notification_id0) (attempts w).

(** The answer of the route: the HTTP status, and under 201 the
    notification with its attempts. *)
Record Response := mkResponse {
  status_code : nat;
  response_body : option (NotificationORM * list NotificationAttempt)
}.

(** [notification.attempts] read on the object [create_and_send]
    returned: the relationship was not loaded with it, and the lazy load
    raises. *)
Definition lazy_attempts (notification : NotificationORM)
    : M (list NotificationAttempt) :=
  raise MissingGreenlet.

(** [create_notification]: a body that fails validation is answered 422
    before the handler runs; an exception leaving the handler is answered
    500; otherwise 201.  The handler builds the response from
    [notification.attempts]. *)
Definition create_notification (redis_client : Redis) (new_id : uuid)
    (body : CreateBody) (w : World) : Response * World :=
  match validate body with
  | None => (mkResponse 422 None, w)
  | Some notification_data =>
      match (notification ← create_and_send (NotificationService_init redis_client)
                              new_id notification_data;
             loaded ← lazy_attempts notification;
             mret (notification, loaded)) w with
      | (Ok (notification, loaded), w') =>
          (mkResponse 201 (Some (notification, loaded)), w')
      | (Raise e, w') => (mkResponse 500 None, w')
      end
  end.

End service.

(** ** [src/models/schemas.py]: the response models *)

(** [NotificationStatus(s)]: the member with that value, [None] where
    Python raises [ValueError]. *)
Definition NotificationStatus_of_value (s : string) : option NotificationStatus :=
  if String.eqb s "pending" then Some PENDING
  else if String.eqb s "sent" then Some SENT
  else if String.eqb s "failed" then Some FAILED
  else None.

Module responses.

(** [AttemptInfo] *)
Record AttemptInfo := mkInfo {
  channel : DeliveryChannel;
  timestamp : datetime;
  success : bool;
  error_message : option string
}.

(** [NotificationResponse] *)
Record NotificationResponse := mkNotificationResponse {
  id : uuid;
  recipient : string;
  message : string;
  status : NotificationStatus;
  channel_used : option DeliveryChannel;
  attempts : list AttemptInfo;
  created_at : datetime;
  updated_at : datetime
}.

End responses.

(** [AttemptInfo(channel=att.channel, ...)]: the stored tag is validated
    into the enumeration; [None] is a validation error. *)
Definition AttemptInfo_of (att : NotificationAttempt) : option responses.AttemptInfo :=
  c ← DeliveryChannel_of_value (channel att);
  Some (responses.mkInfo c (timestamp att) (success att) (error_message att)).

(** [NotificationResponse(id=notification.id, ...)] over the attempts the
    relationship loaded: [status] is validated into its enumeration,
    [channel_used] too unless it is [None]. *)
Definition NotificationResponse_of (notification : NotificationORM)
    (loaded : list NotificationAttempt) : option responses.NotificationResponse :=
  infos ← mapM AttemptInfo_of loaded;
  st ← NotificationStatus_of_value (status notification);
  used ← match channel_used notification with
         | None => Some None
         | Some tag => Some <$> DeliveryChannel_of_value tag
         end;
  Some (responses.mkNotificationResponse (id notification) (recipient notification)
          (message notification) st used infos
          (created_at notification) (updated_at notification)).

(** ** [src/api/routes.py]: GET /api/v1/notifications/{notification_id} *)

(** The route [get_notification]: 404 when the service finds nothing, 200
    with the response model otherwise; a response model that does not
    validate leaves the handler as an exception, answered 500.  The world
    is only read. *)
Definition get_notification_route (notification_id0 : uuid) (w : World)
    : nat * option responses.NotificationResponse :=
  match get_notification notification_id0 w with
  | (Ok (Some notification), _) =>
      match NotificationResponse_of notification (attempts_of notification_id0 w) with
      | Some response => (200, Some response)
      | None => (500, None)
      end
  | (Ok None, _) => (404, None)
  | (Raise _, _) => (500, None)
  end.

(** ** [src/services/retry.py]: the loop of [retry_worker] *)

(** The [while not _shutdown_event.is_set()] loop, for at most [fuel]
    turns.  [shutdown t] tells whether [handle_shutdown] has set the event
    by instant [t].  Returns [true] when the loop was left because the
    event was set, [false] when the turns ran out first.  Cancellation of
    the task is not modelled. *)
Fixpoint retry_worker_loop (settings : Settings) (network : Network)
    (shutdown : nat → bool) (redis_client : Redis) (fuel : nat) : M bool :=
  match fuel with
  | 0 => mret false
  | S fuel' =>
      λ w,
        if shutdown (now w) then (Ok true, w)
        else
          (retry_worker_turn settings network redis_client;;
           retry_worker_loop settings network shutdown redis_client fuel') w
  end.

(** * Vocabulary of the properties *)

Ltac unfold_M :=
  unfold utcnow, db_add_attempt in *;
  unfold mbind, M_bind, mret, M_ret, bind, ret, raise, try_except, get, modify in *.

(** The world after a provider was invoked. *)
Definition after_send (p : INotificationProvider) (n : NotificationORM) (w : World) : World :=
  tick 1 (set_calls (calls w ++ [(channel_name p, recipient n, message n)]) w).

(** The world after channel [c] failed with message [msg]. *)
Definition after_failure (p : INotificationProvider) (n : NotificationORM)
    (c : DeliveryChannel) (msg : string) (w : World) : World :=
  let w1 := after_send p n w in
  set_attempts (attempts w1 ++ [mkAttempt (id n) (channel_value c) (now w1) false (Some msg)]) w1.

(** The notification as the success branch leaves it. *)
Definition sent_via (c : DeliveryChannel) (n : NotificationORM) : NotificationORM :=
  with_channel_used (Some (channel_value c)) (with_status (status_value SENT) n).

(** The world after channel [c] succeeded, attempt recorded, before the
    commit of the row. *)
Definition after_success (p : INotificationProvider) (n : NotificationORM)
    (c : DeliveryChannel) (w : World) : World :=
  let w1 := after_send p n w in
  set_attempts (attempts w1 ++ [mkAttempt (id n) (channel_value c) (now w1) true None]) w1.

(** The object and the world a commit leaves. *)
Definition committed (old new : NotificationORM) (t : datetime) : NotificationORM :=
  if decide (old = new) then new else with_updated_at t new.

Definition commit_to (old new : NotificationORM) (w : World) : World :=
  if decide (old = new) then w
  else set_notifications
         (<[id new := with_updated_at (now w) new]> (notifications w)) w.

(** Channel [c], tried at instant [t], fails: it has a provider and the
    send raises. *)
Definition fails_at (self : NotificationService) (n : NotificationORM)
    (c : DeliveryChannel) (t : nat) : bool :=
  match providers self !! c with
  | Some p => bool_decide (is_Some (send p (recipient n) (message n) t))
  | None => false
  end.

(** Channel [c], tried at instant [t], succeeds. *)
Definition succeeds_at (self : NotificationService) (n : NotificationORM)
    (c : DeliveryChannel) (t : nat) : bool :=
  match providers self !! c with
  | Some p => bool_decide (send p (recipient n) (message n) t = None)
  | None => false
  end.

(** Every channel of the list fails, tried one after the other from
    instant [t] on. *)
Fixpoint all_fail (self : NotificationService) (n : NotificationORM)
    (channels : list DeliveryChannel) (t : nat) : bool :=
  match channels with
  | [] => true
  | c :: rest => fails_at self n c t && all_fail self n rest (S t)
  end.

(** A provider invocation of the round on channel [c]. *)
Definition invoked (self : NotificationService) (n : NotificationORM)
    (call : provider_call) (c : DeliveryChannel) : Prop :=
  ∃ p, providers self !! c = Some p ∧ call = (channel_name p, recipient n, message n).

(** Between [w] and [w'] the channels [tried_channels] were tried in that
    order, each invoked once and each leaving one attempt row, with the
    success flags [flags]; nothing else was appended or invoked. *)
Definition tried (self : NotificationService) (n : NotificationORM)
    (tried_channels : list DeliveryChannel) (flags : list bool) (w w' : World) : Prop :=
  ∃ new new_calls,
    attempts w' = attempts w ++ new
    ∧ channel <$> new = channel_value <$> tried_channels
    ∧ success <$> new = flags
    ∧ Forall (λ a, notification_id a = id n
                   ∧ (success a = false ↔ is_Some (error_message a))) new
    ∧ calls w' = calls w ++ new_calls
    ∧ Forall2 (invoked self n) new_calls tried_channels.

(** The notification as the end of the loop leaves it. *)
Definition marked_failed (n : NotificationORM) : NotificationORM :=
  with_status (status_value FAILED) n.

(** The two worlds agree on everything but the contents of the queue. *)
Definition same_but_stream (w1 w2 : World) : Prop :=
  notifications w1 = notifications w2 ∧ attempts w1 = attempts w2
  ∧ calls w1 = calls w2 ∧ now w1 = now w2
  ∧ delivered w1 = delivered w2 ∧ pending w1 = pending w2.

(** ** Scenarios *)

(** No credentials: every provider is in mock mode. *)
Definition settings_mock : Settings :=
  mkSettings 3 (λ _, Some 1) "" "" "" "" "" "" "".

(** SMTP configured, the other two providers in mock mode. *)
Definition settings_smtp (cap : Z) : Settings :=
  mkSettings cap (λ _, Some 1) "smtp.example.com" "user" "secret" "" "" "" "".

(** The SMTP server refuses every exchange. *)
Definition smtp_down : Network :=
  mkNetwork (λ _ _ _, Some "connection refused") (λ _ _ _, None) (λ _ _ _, None).

Definition redis_up : Redis := mkRedis (λ _, true).
Definition redis_down : Redis := mkRedis (λ _, false).

(** A service whose e-mail provider fails, as [__init__] builds it. *)
Definition failing_email_service (r : Redis) : NotificationService :=
  NotificationService_init (settings_smtp 3) smtp_down r.

(** The same service after [del service.providers[DeliveryChannel.EMAIL]]. *)
Definition service_without_email : NotificationService :=
  mkService redis_up
    (delete EMAIL (providers (NotificationService_init settings_mock smtp_down redis_up))).

Definition pending_row : NotificationORM :=
  mkNotification 7%N "a@b.c" "hi" "pending" None [] 0 0.

(** A store holding [pending_row] and nothing else. *)
Definition one_pending : World :=
  set_notifications (<[7%N := pending_row]> ∅) empty_world.

(** ** Predicates on worlds *)

(** The notification a retry record names is absent from the store or
    already sent. *)
Definition settled (notification_id0 : uuid) (w : World) : Prop :=
  match notifications w !! notification_id0 with
  | None => True
  | Some n => status n = status_value SENT
  end.

(** The world [process_retry_message] leaves: the one it found, after
    the backoff sleep when the payload decoded and the delay was
    computed. *)
Definition slept (st : Settings) (data : RetryPayload) (w : World) : World :=
  match mapM DeliveryChannel_of_value (payload_channels data),
        retry_backoff st (payload_attempt data) with
  | Some _, Some delay => tick (1 + delay) w
  | _, _ => w
  end.

(** Nothing was invoked, recorded, changed or enqueued between the two. *)
Definition untouched (w w' : World) : Prop :=
  calls w' = calls w ∧ attempts w' = attempts w
  ∧ notifications w' = notifications w ∧ stream w' = stream w.

(** [n'] is [n] up to [status], [channel_used] and [updated_at]. *)
Definition same_identity (n n' : NotificationORM) : Prop :=
  id n' = id n ∧ recipient n' = recipient n ∧ message n' = message n
  ∧ metadata n' = metadata n ∧ created_at n' = created_at n.


(** Primary keys: a row is stored under its own [id]. *)
Definition well_keyed (w : World) : Prop :=
  ∀ k n, notifications w !! k = Some n → id n = k.

(** The success attempts recorded for notification [k]. *)
Definition successes (k : uuid) (l : list NotificationAttempt) : list NotificationAttempt :=
  filter (λ a, notification_id a = k ∧ success a = true) l.

(** Row [n], stored under [k], agrees with the attempts [l]: without
    [channel_used] it is not [sent] and has no success attempt; with
    [channel_used] it is [sent] and has one success attempt, on that
    channel. *)
Definition consistent (k : uuid) (n : NotificationORM) (l : list NotificationAttempt) : Prop :=
  id n = k
  ∧ match channel_used n with
    | None => status n ≠ status_value SENT ∧ successes k l = []
    | Some c => status n = status_value SENT
                ∧ ∃ a, successes k l = [a] ∧ channel a = c
    end.

Definition store_invariant (w : World) : Prop :=
  (∀ k n, notifications w !! k = Some n → consistent k n (attempts w))
  ∧ (∀ a, a ∈ attempts w → is_Some (notifications w !! notification_id a)).

(** [create_and_send] up to the first commit: the world with the new
    [pending] row. *)
Definition new_row (new_id : uuid) (data : schemas.NotificationCreate) (t : datetime)
    : NotificationORM :=
  mkNotification new_id (schemas.recipient data) (schemas.message data)
                 (status_value PENDING) None (schemas.metadata data) t t.

Definition inserted (new_id : uuid) (data : schemas.NotificationCreate) (w : World) : World :=
  set_notifications (<[new_id := new_row new_id data (now w)]> (notifications w)) w.

(** The committed operations of the service, with any collaborators and
    arguments: the insert of [create_and_send] and the whole request; a
    delivery round, and its loop stopped after any number of channels, on
    a persisted notification that is not [sent] (the service starts a
    round on a fresh row or behind the guard of [retry_notification]);
    the reset to [pending] of a retry; a retry round; the processing of
    a retry message, alone and in a worker turn. *)
Inductive step : World → World → Prop :=
  | step_create new_id data w :
      notifications w !! new_id = None →
      step w (inserted new_id data w)
  | step_create_and_send self new_id data w :
      step w (create_and_send self new_id data w).2
  | step_loop self n channels w :
      notifications w !! id n = Some n → status n ≠ status_value SENT →
      step w (cascade self n channels w).2
  | step_delivery self n channels w :
      notifications w !! id n = Some n → status n ≠ status_value SENT →
      step w (_attempt_delivery self n channels w).2
  | step_reset n w :
      notifications w !! id n = Some n → status n ≠ status_value SENT →
      step w (commit_to n (with_status (status_value PENDING) n) w)
  | step_retry st self notification_id0 channels attempt w :
      step w (retry_notification st self notification_id0 channels attempt w).2
  | step_process st net r message_id data w :
      step w (process_retry_message st net r message_id data w).2
  | step_worker st net r w :
      step w (retry_worker_turn st net r w).2.

(** The worlds the service can reach from the empty store. *)
Definition reachable (w : World) : Prop := rtc step empty_world w.

(** ** More scenarios *)

(** A recipient of 256 characters. *)
Definition long_recipient : string :=
  String.concat "" (replicate 256 "a").

(** The request of the scenarios: one channel, e-mail. *)
Definition email_only : schemas.NotificationCreate :=
  schemas.mkCreate "a@b.c" "hi" [EMAIL] [].

(** The world after the create-and-send request failed on e-mail. *)
Definition after_first_round : World :=
  (create_and_send (failing_email_service redis_up) 7 email_only empty_world).2.

(** The world after a create-and-send request that went through on the
    first channel, every provider in mock mode. *)
Definition after_mock_send : World :=
  (create_and_send (NotificationService_init settings_mock smtp_down redis_up) 7
     email_only empty_world).2.

(** ** The commits of the service, one at a time *)

(** A status the engine assigns at the end of a loop or before a retry. *)
Definition unsent_status (s : string) : Prop :=
  s = status_value PENDING ∨ s = status_value FAILED.

(** A retry record as the service writes one for a stored notification. *)
Definition writable (p : RetryPayload) (w : World) : Prop :=
  is_Some (notifications w !! payload_notification_id p)
  ∧ ∃ channels, payload_channels p = channel_value <$> channels.

(** The single effects the operations are made of: the insert of a new
    row; a failed and a successful iteration of the loop, and a status
    assignment, each on a persisted notification that is not [sent]; an
    append to the stream; a consumer-group update; the passing of time. *)
Inductive effect : World → World → Prop :=
  | effect_insert new_id data w :
      notifications w !! new_id = None →
      effect w (inserted new_id data w)
  | effect_failure p n c msg w :
      notifications w !! id n = Some n → status n ≠ status_value SENT →
      effect w (after_failure p n c msg w)
  | effect_success p n c w :
      notifications w !! id n = Some n → status n ≠ status_value SENT →
      effect w (commit_to n (sent_via c n) (after_success p n c w))
  | effect_status n s w :
      notifications w !! id n = Some n → status n ≠ status_value SENT →
      unsent_status s →
      effect w (commit_to n (with_status s n) w)
  | effect_xadd payload w :
      writable payload w →
      effect w (set_stream (stream w ++ [payload]) w)
  | effect_group d p w :
      effect w (set_group d p w)
  | effect_tick k w :
      effect w (tick k w).

(** A stored tag is the value of a channel. *)
Definition channel_tag (s : string) : Prop := ∃ c, s = channel_value c.

(** The rows hold what the response models accept: a status of the
    enumeration, a [channel_used] and attempt channels of the enumeration. *)
Definition well_typed (w : World) : Prop :=
  (∀ k n, notifications w !! k = Some n →
          (∃ s, status n = status_value s)
          ∧ (∀ tag, channel_used n = Some tag → channel_tag tag))
  ∧ Forall (λ a, channel_tag (channel a)) (attempts w).

(** The attempt rows are as the data model has them: each belongs to a
    stored notification and carries an error message exactly when it is a
    failure. *)
Definition attempts_sound (w : World) : Prop :=
  Forall (λ a, is_Some (notifications w !! notification_id a)
               ∧ (success a = false ↔ is_Some (error_message a))) (attempts w).

(** Every record of the stream names a stored notification and decodes. *)
Definition queue_sound (w : World) : Prop :=
  Forall (λ p, is_Some (notifications w !! payload_notification_id p)
               ∧ is_Some (mapM DeliveryChannel_of_value (payload_channels p)))
         (stream w).

(** The logs only grew from [w] to [w']. *)
Definition append_only (w w' : World) : Prop :=
  stream w `prefix_of` stream w' ∧ attempts w `prefix_of` attempts w'
  ∧ calls w `prefix_of` calls w'.

(** Notification [k], [sent] in [w], is the same row with the same
    attempts in [w']. *)
Definition kept_sent (k : uuid) (w w' : World) : Prop :=
  ∀ n, notifications w !! k = Some n → status n = status_value SENT →
       notifications w' !! k = Some n ∧ attempts_of k w' = attempts_of k w.

(** [settings.is_..._configured] for the provider of channel [c]. *)
Definition configured (st : Settings) (c : DeliveryChannel) : bool :=
  match c with
  | EMAIL => is_smtp_configured st
  | SMS => is_twilio_configured st
  | TELEGRAM => is_telegram_configured st
  end.

(** The provider [__init__] registers for channel [c]. *)
Definition provider_of (st : Settings) (net : Network) (c : DeliveryChannel)
    : INotificationProvider :=
  match c with
  | EMAIL => EmailProvider st net
  | SMS => SMSProvider st net
  | TELEGRAM => TelegramProvider st net
  end.

(** What the response model shows of an attempt row. *)
Definition shown (info : responses.AttemptInfo) : string * bool * option string :=
  (channel_value (responses.channel info), responses.success info,
   responses.error_message info).

(** Every pending entry was delivered: it lies below the cursor. *)
Definition pending_below (w : World) : Prop :=
  Forall (λ i, i < delivered w) (pending w).

(** * Properties *)

(** ** One iteration of the loop *)

Lemma db_commit_eq old new w :
  db_commit old new w = (Ok (committed old new (now w)), commit_to old new w).
Proof.
  unfold db_commit, committed, commit_to.
  destruct (decide (old = new)); reflexivity.
Qed.

Lemma cascade_nil self n w : cascade self n [] w = (Ok None, w).
Proof. reflexivity. Qed.

Lemma cascade_skip self n c rest w :
  providers self !! c = None →
  cascade self n (c :: rest) w = cascade self n rest w.
Proof. intros H. simpl. rewrite H. reflexivity. Qed.

Lemma cascade_failure self n c rest w p msg :
  providers self !! c = Some p →
  send p (recipient n) (message n) (now w) = Some msg →
  cascade self n (c :: rest) w = cascade self n rest (after_failure p n c msg w).
Proof.
  intros Hp Hs. simpl. rewrite Hp. unfold_M. unfold provider_send.
  rewrite Hs. reflexivity.
Qed.

Lemma cascade_success self n c rest w p :
  providers self !! c = Some p →
  send p (recipient n) (message n) (now w) = None →
  cascade self n (c :: rest) w =
    (Ok (Some (committed n (sent_via c n) (S (now w)))),
     commit_to n (sent_via c n) (after_success p n c w)).
Proof.
  intros Hp Hs. simpl. rewrite Hp. unfold_M. unfold provider_send.
  rewrite Hs. simpl. fold (sent_via c n). rewrite db_commit_eq. reflexivity.
Qed.

(** ** The outcomes of a round, read off the providers *)

Lemma tried_refl self n w : tried self n [] [] w w.
Proof.
  exists [], []. rewrite !app_nil_r. repeat split; constructor.
Qed.

Lemma tried_cons self n c rest b flags w w1 w' a call :
  attempts w1 = attempts w ++ [a] →
  calls w1 = calls w ++ [call] →
  channel a = channel_value c → success a = b → notification_id a = id n →
  (success a = false ↔ is_Some (error_message a)) →
  invoked self n call c →
  tried self n rest flags w1 w' →
  tried self n (c :: rest) (b :: flags) w w'.
Proof.
  intros Ha Hc Hch Hb Hid Herr Hinv (new & new_calls & H1 & H2 & H3 & H4 & H5 & H6).
  exists (a :: new), (call :: new_calls).
  rewrite H1, Ha, H5, Hc, <- !app_assoc, !fmap_cons, Hch, Hb, H2, H3.
  repeat split; try constructor; auto.
Qed.

Lemma tried_snoc self n pre c b flags w w1 w' a call :
  tried self n pre flags w w1 →
  attempts w' = attempts w1 ++ [a] →
  calls w' = calls w1 ++ [call] →
  channel a = channel_value c → success a = b → notification_id a = id n →
  (success a = false ↔ is_Some (error_message a)) →
  invoked self n call c →
  tried self n (pre ++ [c]) (flags ++ [b]) w w'.
Proof.
  intros (new & new_calls & H1 & H2 & H3 & H4 & H5 & H6) Ha Hc Hch Hb Hid Herr Hinv.
  exists (new ++ [a]), (new_calls ++ [call]).
  rewrite Ha, H1, Hc, H5, <- !app_assoc, !fmap_app, !fmap_cons, !fmap_nil, Hch, Hb, H2, H3.
  repeat split; auto.
  - apply Forall_app; split; [done | repeat constructor; tauto].
  - apply Forall2_app; [done | repeat constructor; done].
Qed.

Lemma fails_at_inv self n c t :
  fails_at self n c t = true →
  ∃ p msg, providers self !! c = Some p ∧ send p (recipient n) (message n) t = Some msg.
Proof.
  unfold fails_at. destruct (providers self !! c) as [p|]; [|done].
  intros H. apply bool_decide_eq_true in H. destruct H as [msg H]. eauto.
Qed.

Lemma succeeds_at_inv self n c t :
  succeeds_at self n c t = true →
  ∃ p, providers self !! c = Some p ∧ send p (recipient n) (message n) t = None.
Proof.
  unfold succeeds_at. destruct (providers self !! c) as [p|]; [|done].
  intros H. apply bool_decide_eq_true in H. eauto.
Qed.

(** Channels that all have a provider either fail one and all, or split
    at the first that succeeds. *)
Lemma outcomes_dichotomy self n channels : ∀ t,
  Forall (λ c, is_Some (providers self !! c)) channels →
  all_fail self n channels t = true
  ∨ ∃ pre c post,
      channels = pre ++ c :: post
      ∧ all_fail self n pre t = true
      ∧ succeeds_at self n c (length pre + t) = true.
Proof.
  induction channels as [|c rest IH]; intros t Hreg; [left; reflexivity|].
  apply Forall_cons in Hreg as [[p Hp] Hrest].
  destruct (send p (recipient n) (message n) t) as [msg|] eqn:Hs.
  - assert (Hc : fails_at self n c t = true).
    { unfold fails_at. rewrite Hp, Hs. apply bool_decide_eq_true. eauto. }
    destruct (IH (S t) Hrest) as [Hall|(pre & d & post & -> & Hpre & Hok)].
    + left. simpl. rewrite Hc, Hall. reflexivity.
    + right. exists (c :: pre), d, post. split; [reflexivity|]. split.
      * simpl. rewrite Hc, Hpre. reflexivity.
      * simpl. replace (S (length pre + t)) with (length pre + S t) by lia. exact Hok.
  - right. exists [], c, rest. split; [reflexivity|]. split; [reflexivity|].
    unfold succeeds_at. simpl. rewrite Hp, Hs. apply bool_decide_eq_true. reflexivity.
Qed.

(** When every channel fails the loop runs to its end, having tried them
    all, and leaves the notification rows and the queue alone. *)
Lemma cascade_all_fail self n channels : ∀ w,
  all_fail self n channels (now w) = true →
  ∃ w', cascade self n channels w = (Ok None, w')
        ∧ tried self n channels (replicate (length channels) false) w w'
        ∧ notifications w' = notifications w
        ∧ stream w' = stream w
        ∧ delivered w' = delivered w ∧ pending w' = pending w
        ∧ now w' = length channels + now w.
Proof.
  induction channels as [|c rest IH]; intros w Hall.
  - exists w. rewrite cascade_nil. repeat split. apply tried_refl.
  - simpl in Hall. apply andb_prop in Hall as [Hc Hrest].
    apply fails_at_inv in Hc as (p & msg & Hp & Hs).
    rewrite (cascade_failure _ _ _ _ _ _ _ Hp Hs).
    destruct (IH (after_failure p n c msg w)) as (w' & Heq & Htr & Hn & Hst & Hd & Hpe & Hnow);
      [exact Hrest|].
    exists w'. rewrite Heq. repeat split; try done.
    + simpl. eapply tried_cons; [| | | | | | |exact Htr]; try reflexivity.
      * simpl. split; [eauto | done].
      * exists p. done.
    + rewrite Hnow. simpl. lia.
Qed.

(** When a channel succeeds after those before it failed, the loop
    returns there. *)
Lemma cascade_first_success self n pre c post : ∀ w,
  all_fail self n pre (now w) = true →
  succeeds_at self n c (length pre + now w) = true →
  ∃ p w1,
    providers self !! c = Some p
    ∧ tried self n pre (replicate (length pre) false) w w1
    ∧ notifications w1 = notifications w
    ∧ stream w1 = stream w
    ∧ cascade self n (pre ++ c :: post) w =
        (Ok (Some (committed n (sent_via c n) (S (now w1)))),
         commit_to n (sent_via c n) (after_success p n c w1)).
Proof.
  induction pre as [|d pre IH]; intros w Hall Hok.
  - apply succeeds_at_inv in Hok as (p & Hp & Hs). simpl in Hs.
    exists p, w. split; [done|]. split; [apply tried_refl|].
    repeat split. simpl app. apply cascade_success; done.
  - simpl in Hall. apply andb_prop in Hall as [Hd Hrest].
    apply fails_at_inv in Hd as (q & msg & Hq & Hs).
    destruct (IH (after_failure q n d msg w)) as (p & w1 & Hp & Htr & Hn & Hst & Heq).
    + exact Hrest.
    + simpl. simpl in Hok. replace (length pre + S (now w)) with (S (length pre + now w)) by lia.
      exact Hok.
    + exists p, w1. split; [done|]. split.
      * simpl. eapply tried_cons; [| | | | | | |exact Htr]; try reflexivity.
        -- simpl. split; [eauto | done].
        -- exists q. done.
      * repeat split; try done.
        simpl app. rewrite (cascade_failure _ _ _ _ _ _ _ Hq Hs). exact Heq.
Qed.

(** ** Commits *)

Lemma committed_fields old new t :
  id (committed old new t) = id new
  ∧ recipient (committed old new t) = recipient new
  ∧ message (committed old new t) = message new
  ∧ status (committed old new t) = status new
  ∧ channel_used (committed old new t) = channel_used new
  ∧ metadata (committed old new t) = metadata new
  ∧ created_at (committed old new t) = created_at new.
Proof. unfold committed. destruct (decide (old = new)); done. Qed.

Lemma committed_status old new t : status (committed old new t) = status new.
Proof. apply committed_fields. Qed.

Lemma committed_channel_used old new t :
  channel_used (committed old new t) = channel_used new.
Proof. apply committed_fields. Qed.

Lemma committed_id old new t : id (committed old new t) = id new.
Proof. apply committed_fields. Qed.

Lemma commit_to_lookup old new w :
  notifications w !! id old = Some old → id new = id old →
  notifications (commit_to old new w) !! id old = Some (committed old new (now w)).
Proof.
  intros Hold Hid. unfold commit_to, committed.
  destruct (decide (old = new)) as [->|_]; [done|].
  simpl. rewrite Hid. apply lookup_insert_eq.
Qed.

Lemma commit_to_lookup_ne old new w k :
  k ≠ id new →
  notifications (commit_to old new w) !! k = notifications w !! k.
Proof.
  intros Hk. unfold commit_to. destruct (decide (old = new)); [done|].
  simpl. apply lookup_insert_ne. done.
Qed.

Lemma commit_to_rest old new w :
  attempts (commit_to old new w) = attempts w
  ∧ stream (commit_to old new w) = stream w
  ∧ delivered (commit_to old new w) = delivered w
  ∧ pending (commit_to old new w) = pending w
  ∧ calls (commit_to old new w) = calls w
  ∧ now (commit_to old new w) = now w.
Proof. unfold commit_to. destruct (decide (old = new)); done. Qed.

(** [_attempt_delivery], by the way its loop ended. *)
Lemma attempt_delivery_eq self n channels w :
  _attempt_delivery self n channels w =
    match cascade self n channels w with
    | (Ok (Some sent), w') => (Ok sent, w')
    | (Ok None, w') =>
        let failed := committed n (marked_failed n) (now w') in
        match xadd (redis self)
                (mkPayload (id failed) (channel_value <$> channels) 1)
                (commit_to n (marked_failed n) w') with
        | (Ok _, w'') => (Ok failed, w'')
        | (Raise e, w'') => (Raise e, w'')
        end
    | (Raise e, w') => (Raise e, w')
    end.
Proof.
  unfold _attempt_delivery, _enqueue_retry. unfold_M.
  destruct (cascade self n channels w) as [[[sent|]|e] w']; try reflexivity.
  fold (marked_failed n). rewrite db_commit_eq. reflexivity.
Qed.

(** ** The cascade (C3) *)

(** C3.  A delivery round on a persisted notification tries the channels
    in list order.  If some channel succeeds after all before it failed,
    the attempts appended are one failure per earlier channel and then the
    one success on that channel, the notification ends [sent] with
    [channel_used] that channel, the later channels are not invoked and
    nothing is enqueued.  If every channel fails, one failure attempt per
    channel is appended in order, the notification ends [failed] and one
    retry record with [attempt = 1] and the same channel list is appended
    to the queue. *)
Theorem attempt_delivery_cascade self n channels w :
  channels ≠ [] →
  notifications w !! id n = Some n →
  (∀ pre c post,
      channels = pre ++ c :: post →
      all_fail self n pre (now w) = true →
      succeeds_at self n c (length pre + now w) = true →
      ∃ sent w',
        _attempt_delivery self n channels w = (Ok sent, w')
        ∧ status sent = status_value SENT
        ∧ channel_used sent = Some (channel_value c)
        ∧ notifications w' !! id n = Some sent
        ∧ tried self n (pre ++ [c]) (replicate (length pre) false ++ [true]) w w'
        ∧ stream w' = stream w)
  ∧ (all_fail self n channels (now w) = true →
     answers (redis self) (length channels + now w) = true →
     ∃ failed w',
       _attempt_delivery self n channels w = (Ok failed, w')
       ∧ status failed = status_value FAILED
       ∧ notifications w' !! id n = Some failed
       ∧ tried self n channels (replicate (length channels) false) w w'
       ∧ stream w' = stream w ++ [mkPayload (id n) (channel_value <$> channels) 1]).
Proof.
  intros _ Hrow. split.
  - intros pre c post -> Hpre Hok.
    destruct (cascade_first_success self n pre c post w Hpre Hok)
      as (p & w1 & Hp & Htr & Hn & Hst & Heq).
    rewrite attempt_delivery_eq, Heq.
    eexists _, _. split; [reflexivity|].
    pose proof (commit_to_rest n (sent_via c n) (after_success p n c w1))
      as (Ha & Hs' & _ & _ & Hcalls & _).
    repeat split.
    + rewrite committed_status. reflexivity.
    + rewrite committed_channel_used. reflexivity.
    + apply (commit_to_lookup n (sent_via c n) (after_success p n c w1)); [|reflexivity].
      simpl. rewrite Hn. exact Hrow.
    + eapply tried_snoc; [exact Htr| rewrite Ha; reflexivity | rewrite Hcalls; reflexivity
                         | reflexivity | reflexivity | reflexivity | | exists p; done].
      simpl. split; [done | intros [? ?]; done].
    + rewrite Hs'. exact Hst.
  - intros Hall Hup.
    destruct (cascade_all_fail self n channels w Hall)
      as (w' & Heq & Htr & Hn & Hst & _ & _ & Hnow).
    rewrite attempt_delivery_eq, Heq. cbv zeta.
    pose proof (commit_to_rest n (marked_failed n) w') as (Ha & Hs' & _ & _ & Hcalls & Hnow').
    unfold xadd. rewrite Hnow', Hnow, Hup.
    eexists _, _. split; [reflexivity|].
    repeat split.
    + rewrite committed_status. reflexivity.
    + simpl. rewrite <- Hnow.
      apply (commit_to_lookup n (marked_failed n) w'); [|reflexivity].
      rewrite Hn. exact Hrow.
    + destruct Htr as (new & new_calls & H1 & H2 & H3 & H4 & H5 & H6).
      exists new, new_calls. simpl. rewrite Ha, Hcalls. done.
    + simpl. rewrite Hs', Hst, committed_id. reflexivity.
Qed.

(** ** A rule for the loop *)

(** [P] is kept by every failed iteration and [Q] is established by the
    successful one: then the loop ends in [P] when it runs to its end and
    in [Q] when it returns; it never raises. *)
Lemma cascade_rule self n (P : World → Prop) (Q : NotificationORM → World → Prop) :
  (∀ w p c msg,
      providers self !! c = Some p →
      send p (recipient n) (message n) (now w) = Some msg →
      P w → P (after_failure p n c msg w)) →
  (∀ w p c,
      providers self !! c = Some p →
      send p (recipient n) (message n) (now w) = None →
      P w →
      Q (committed n (sent_via c n) (S (now w)))
        (commit_to n (sent_via c n) (after_success p n c w))) →
  ∀ channels w,
    P w →
    match cascade self n channels w with
    | (Ok None, w') => P w'
    | (Ok (Some sent), w') => Q sent w'
    | (Raise _, _) => False
    end.
Proof.
  intros Hfail Hok channels.
  induction channels as [|c rest IH]; intros w HP.
  - exact HP.
  - destruct (providers self !! c) as [p|] eqn:Hp.
    + destruct (send p (recipient n) (message n) (now w)) as [msg|] eqn:Hs.
      * rewrite (cascade_failure _ _ _ _ _ _ _ Hp Hs). apply IH. eauto.
      * rewrite (cascade_success _ _ _ _ _ _ Hp Hs). eauto.
    + rewrite (cascade_skip _ _ _ _ _ Hp). apply IH. exact HP.
Qed.

(** The loop itself never touches the queue. *)
Lemma cascade_queue self n channels w :
  stream (cascade self n channels w).2 = stream w
  ∧ delivered (cascade self n channels w).2 = delivered w
  ∧ pending (cascade self n channels w).2 = pending w.
Proof.
  pose proof (cascade_rule self n
    (λ w', stream w' = stream w ∧ delivered w' = delivered w ∧ pending w' = pending w)
    (λ _ w', stream w' = stream w ∧ delivered w' = delivered w ∧ pending w' = pending w))
    as H.
  specialize (H (λ _ _ _ _ _ _ HP, HP)).
  assert (Hq : ∀ w0 p c,
    providers self !! c = Some p →
    send p (recipient n) (message n) (now w0) = None →
    stream w0 = stream w ∧ delivered w0 = delivered w ∧ pending w0 = pending w →
    stream (commit_to n (sent_via c n) (after_success p n c w0)) = stream w
    ∧ delivered (commit_to n (sent_via c n) (after_success p n c w0)) = delivered w
    ∧ pending (commit_to n (sent_via c n) (after_success p n c w0)) = pending w).
  { intros w0 p c _ _ HP.
    destruct (commit_to_rest n (sent_via c n) (after_success p n c w0))
      as (_ & -> & -> & -> & _). exact HP. }
  specialize (H Hq channels w (conj eq_refl (conj eq_refl eq_refl))).
  destruct (cascade self n channels w) as [[[s|]|e] w']; simpl; tauto.
Qed.

(** ** The empty channel list (C9) *)

(** C9.  On the empty channel list a delivery round on a persisted
    notification invokes no provider and appends no attempt, leaves the
    notification [failed], and, the queue answering, appends a retry
    record with [attempt = 1] and the empty channel list. *)
Theorem attempt_delivery_empty self n w :
  notifications w !! id n = Some n →
  answers (redis self) (now w) = true →
  ∃ failed w',
    _attempt_delivery self n [] w = (Ok failed, w')
    ∧ attempts w' = attempts w
    ∧ calls w' = calls w
    ∧ status failed = status_value FAILED
    ∧ notifications w' !! id n = Some failed
    ∧ stream w' = stream w ++ [mkPayload (id n) [] 1].
Proof.
  intros Hrow Hup.
  rewrite attempt_delivery_eq, cascade_nil. cbv zeta.
  pose proof (commit_to_rest n (marked_failed n) w) as (Ha & Hs & _ & _ & Hc & Hnow).
  unfold xadd. rewrite Hnow, Hup.
  eexists _, _. split; [reflexivity|]. simpl.
  rewrite Ha, Hc, Hs, committed_status, committed_id.
  repeat split. apply (commit_to_lookup n (marked_failed n) w Hrow). reflexivity.
Qed.

(** ** Channels without a provider (C4) *)

Lemma cascade_skip_middle self n pre c post : ∀ w,
  providers self !! c = None →
  cascade self n (pre ++ c :: post) w = cascade self n (pre ++ post) w.
Proof.
  induction pre as [|d pre IH]; intros w Hc.
  - apply cascade_skip. exact Hc.
  - simpl app. destruct (providers self !! d) as [p|] eqn:Hp.
    + destruct (send p (recipient n) (message n) (now w)) as [msg|] eqn:Hs.
      * rewrite !(cascade_failure _ _ _ _ _ _ _ Hp Hs). apply IH. exact Hc.
      * rewrite !(cascade_success _ _ _ _ _ _ Hp Hs). reflexivity.
    + rewrite !(cascade_skip _ _ _ _ _ Hp). apply IH. exact Hc.
Qed.

(** C4, as the code has it.  A channel without a registered provider is
    passed over: the loop behaves on the list as on the list without that
    channel, so no attempt row is recorded for it and no provider is
    invoked on its account, and the loop goes on to the next channel
    without touching the queue.  The whole round returns the same and
    leaves the same store, attempts and provider calls as the round
    without the channel; the retry record appended when no channel
    succeeds carries the list as given. *)
Theorem missing_provider_is_skipped self n pre c post w :
  providers self !! c = None →
  cascade self n (pre ++ c :: post) w = cascade self n (pre ++ post) w
  ∧ stream (cascade self n (pre ++ c :: post) w).2 = stream w
  ∧ (_attempt_delivery self n (pre ++ c :: post) w).1
      = (_attempt_delivery self n (pre ++ post) w).1
  ∧ same_but_stream (_attempt_delivery self n (pre ++ c :: post) w).2
                    (_attempt_delivery self n (pre ++ post) w).2
  ∧ (stream (_attempt_delivery self n (pre ++ c :: post) w).2
       = stream (_attempt_delivery self n (pre ++ post) w).2
     ∨ ∃ s,
         stream (_attempt_delivery self n (pre ++ c :: post) w).2
           = s ++ [mkPayload (id n) (channel_value <$> (pre ++ c :: post)) 1]
         ∧ stream (_attempt_delivery self n (pre ++ post) w).2
           = s ++ [mkPayload (id n) (channel_value <$> (pre ++ post)) 1]).
Proof.
  intros Hc.
  pose proof (cascade_skip_middle self n pre c post w Hc) as Heq.
  split; [exact Heq|]. split; [apply cascade_queue|].
  rewrite !attempt_delivery_eq, Heq.
  destruct (cascade self n (pre ++ post) w) as [[[sent|]|e] w'];
    try (repeat split; left; reflexivity).
  cbv zeta. unfold xadd.
  destruct (answers (redis self) (now (commit_to n (marked_failed n) w'))).
  - repeat split. right. eexists. simpl. rewrite committed_id. split; reflexivity.
  - repeat split. left. reflexivity.
Qed.

Lemma attempt_delivery_cascade_witness :
  (∃ sent w',
      _attempt_delivery (failing_email_service redis_up) pending_row [EMAIL; SMS] one_pending
        = (Ok sent, w')
      ∧ status sent = status_value SENT
      ∧ channel_used sent = Some (channel_value SMS)
      ∧ notifications w' !! id pending_row = Some sent
      ∧ tried (failing_email_service redis_up) pending_row ([EMAIL] ++ [SMS])
              (replicate (length [EMAIL]) false ++ [true]) one_pending w'
      ∧ stream w' = stream one_pending)
  ∧ (∃ failed w',
      _attempt_delivery (failing_email_service redis_up) pending_row [EMAIL; EMAIL] one_pending
        = (Ok failed, w')
      ∧ status failed = status_value FAILED
      ∧ notifications w' !! id pending_row = Some failed
      ∧ tried (failing_email_service redis_up) pending_row [EMAIL; EMAIL]
              (replicate (length [EMAIL; EMAIL]) false) one_pending w'
      ∧ stream w' = stream one_pending
                    ++ [mkPayload (id pending_row) (channel_value <$> [EMAIL; EMAIL]) 1]).
Proof.
  split.
  - apply (proj1 (attempt_delivery_cascade (failing_email_service redis_up) pending_row
                    [EMAIL; SMS] one_pending ltac:(discriminate) eq_refl)
             [EMAIL] SMS [] eq_refl eq_refl eq_refl).
  - apply (proj2 (attempt_delivery_cascade (failing_email_service redis_up) pending_row
                    [EMAIL; EMAIL] one_pending ltac:(discriminate) eq_refl)
             eq_refl eq_refl).
Defined.

Lemma attempt_delivery_empty_witness :
  ∃ failed w',
    _attempt_delivery (failing_email_service redis_up) pending_row [] one_pending
      = (Ok failed, w')
    ∧ attempts w' = attempts one_pending
    ∧ calls w' = calls one_pending
    ∧ status failed = status_value FAILED
    ∧ notifications w' !! id pending_row = Some failed
    ∧ stream w' = stream one_pending ++ [mkPayload (id pending_row) [] 1].
Proof.
  apply (attempt_delivery_empty (failing_email_service redis_up) pending_row one_pending);
    reflexivity.
Defined.

(** C4, as claimed, fails: with no provider registered for [email], the
    round on [email, sms] records no attempt for [email] at all, where the
    claim has one failure attempt with error "no provider for email". *)
Lemma missing_provider_records_nothing :
  providers service_without_email !! EMAIL = None
  ∧ attempts (_attempt_delivery service_without_email pending_row [EMAIL; SMS] one_pending).2
    = [mkAttempt 7%N "sms" 1 true None]
  ∧ ¬ ∃ a, a ∈ attempts (_attempt_delivery service_without_email pending_row
                            [EMAIL; SMS] one_pending).2
           ∧ channel a = channel_value EMAIL
           ∧ success a = false
           ∧ error_message a = Some "no provider for email".
Proof.
  assert (H : attempts (_attempt_delivery service_without_email pending_row
                          [EMAIL; SMS] one_pending).2
              = [mkAttempt 7%N "sms" 1 true None]) by (vm_compute; reflexivity).
  split; [reflexivity|]. split; [exact H|].
  intros (a & Hin & Hch & _). rewrite H in Hin.
  apply list_elem_of_singleton in Hin. subst a. discriminate Hch.
Qed.

Lemma missing_provider_is_skipped_witness :
  cascade service_without_email pending_row ([] ++ EMAIL :: [SMS]) one_pending
    = cascade service_without_email pending_row ([] ++ [SMS]) one_pending
  ∧ attempts (cascade service_without_email pending_row ([] ++ EMAIL :: [SMS]) one_pending).2
    = [mkAttempt 7%N "sms" 1 true None].
Proof.
  split.
  - apply (missing_provider_is_skipped service_without_email pending_row [] EMAIL [SMS]
             one_pending eq_refl).
  - vm_compute. reflexivity.
Defined.

(** ** Retry records of settled notifications (C5) *)

Lemma retry_notification_settled st self nid channels attempt w :
  settled nid w →
  retry_notification st self nid channels attempt w = (Ok tt, w).
Proof.
  unfold settled, retry_notification, get_notification. unfold_M.
  destruct (notifications w !! nid) as [n|]; [|reflexivity].
  intros ->. reflexivity.
Qed.

(** [retry_notification] is its lookup followed by [retry_found]: the
    worker's call differs from it in the lookup alone. *)
Lemma retry_notification_found st self nid channels attempt w :
  retry_notification st self nid channels attempt w
  = (found ← get_notification nid;
     retry_found st self found nid channels attempt) w.
Proof. reflexivity. Qed.

(** The lookup of the worker raises, the [except] swallows it: of a
    message nothing is left but the time slept. *)
Lemma process_eq st net r mid data w :
  process_retry_message st net r mid data w = (Ok tt, slept st data w).
Proof.
  unfold process_retry_message, decode_channels, backoff_sleep, slept,
    retry_notification_str, get_notification_str.
  unfold_M.
  destruct (mapM DeliveryChannel_of_value (payload_channels data)); [|reflexivity].
  destruct (retry_backoff st (payload_attempt data)); reflexivity.
Qed.

Lemma slept_untouched st data w : untouched w (slept st data w).
Proof.
  unfold slept.
  destruct (mapM DeliveryChannel_of_value (payload_channels data)); [|done].
  destruct (retry_backoff st (payload_attempt data)); done.
Qed.

Lemma process_untouched st net r mid data w :
  untouched w (process_retry_message st net r mid data w).2.
Proof. rewrite process_eq. apply slept_untouched. Qed.

(** C5.  A retry record whose notification is absent from the store or
    already [sent] is processed without invoking a provider, appending an
    attempt, changing a notification or enqueuing a record: so by the
    worker's [process_retry_message], and so by [retry_notification]
    called with the identifier, which returns at once.  Hence when a
    first processing of a record left its notification [sent], processing
    the record again leaves every notification, status included, as the
    first processing left it. *)
Theorem settled_retry_is_dropped st net r mid data w :
  (settled (payload_notification_id data) w →
     untouched w (process_retry_message st net r mid data w).2
     ∧ (∀ self channels,
          retry_notification st self (payload_notification_id data) channels
            (payload_attempt data) w = (Ok tt, w)))
  ∧ (∀ self channels n,
       notifications
         (retry_notification st self (payload_notification_id data) channels
            (payload_attempt data) w).2
         !! payload_notification_id data = Some n →
       status n = status_value SENT →
       retry_notification st self (payload_notification_id data) channels
         (payload_attempt data)
         (retry_notification st self (payload_notification_id data) channels
            (payload_attempt data) w).2
       = (Ok tt,
          (retry_notification st self (payload_notification_id data) channels
             (payload_attempt data) w).2))
  ∧ (∀ n,
       notifications (process_retry_message st net r mid data w).2
         !! payload_notification_id data = Some n →
       status n = status_value SENT →
       untouched (process_retry_message st net r mid data w).2
         (process_retry_message st net r mid data
            (process_retry_message st net r mid data w).2).2).
Proof.
  split; [|split].
  - intros Hs. split; [apply process_untouched|].
    intros self channels. apply retry_notification_settled. exact Hs.
  - intros self channels n Hn Hsent. apply retry_notification_settled.
    unfold settled. rewrite Hn. exact Hsent.
  - intros n _ _. apply process_untouched.
Qed.

(** ** What a round leaves alone (C10) *)












(** ** [channel_used] and [sent] (C7) *)

Lemma successes_snoc k l a :
  successes k (l ++ [a])
  = successes k l ++ (if decide (notification_id a = k ∧ success a = true) then [a] else []).
Proof. unfold successes. rewrite filter_app. f_equal. Qed.

Lemma successes_snoc_other k l a :
  ¬ (notification_id a = k ∧ success a = true) →
  successes k (l ++ [a]) = successes k l.
Proof.
  intros H. rewrite successes_snoc. rewrite decide_False by exact H. apply app_nil_r.
Qed.

Lemma consistent_snoc_other k n l a :
  ¬ (notification_id a = k ∧ success a = true) →
  consistent k n l → consistent k n (l ++ [a]).
Proof.
  intros H. unfold consistent. rewrite successes_snoc_other by exact H. done.
Qed.

Lemma store_invariant_ext w w' :
  notifications w' = notifications w → attempts w' = attempts w →
  store_invariant w → store_invariant w'.
Proof. unfold store_invariant. intros -> ->. done. Qed.

Lemma invariant_after_failure p n c msg w :
  store_invariant w → is_Some (notifications w !! id n) →
  store_invariant (after_failure p n c msg w).
Proof.
  intros [Hrows Hatt] Hsome. split; simpl.
  - intros k m Hk. apply consistent_snoc_other; [|apply Hrows; exact Hk].
    simpl. intros [_ ?]. done.
  - intros a Ha. apply elem_of_app in Ha as [Ha|Ha]; [apply Hatt; exact Ha|].
    apply list_elem_of_singleton in Ha. subst a. exact Hsome.
Qed.

Lemma is_Some_insert_keep (m : gmap N NotificationORM) k v j :
  is_Some (m !! j) → is_Some (<[k := v]> m !! j).
Proof.
  intros H. destruct (decide (k = j)) as [->|Hne].
  - rewrite lookup_insert_eq. eauto.
  - rewrite lookup_insert_ne by done. exact H.
Qed.

Lemma invariant_after_success p n c w :
  store_invariant w → notifications w !! id n = Some n → channel_used n = None →
  store_invariant (commit_to n (sent_via c n) (after_success p n c w)).
Proof.
  intros [Hrows Hatt] Hrow Hnone.
  assert (Hne : n ≠ sent_via c n).
  { intros Heq. apply (f_equal channel_used) in Heq. simpl in Heq. congruence. }
  unfold commit_to. rewrite decide_False by exact Hne.
  split; simpl.
  - intros k m Hk. destruct (decide (k = id n)) as [->|Hk'].
    + rewrite lookup_insert_eq in Hk. injection Hk as <-.
      split; [reflexivity|]. simpl. split; [reflexivity|].
      destruct (Hrows _ _ Hrow) as [_ Hc]. rewrite Hnone in Hc. destruct Hc as [_ Hs].
      eexists. rewrite successes_snoc, Hs, decide_True by done. split; reflexivity.
    + rewrite lookup_insert_ne in Hk by done.
      apply consistent_snoc_other; [|apply Hrows; exact Hk].
      simpl. intros [? _]. congruence.
  - intros a Ha. apply is_Some_insert_keep.
    apply elem_of_app in Ha as [Ha|Ha]; [apply Hatt; exact Ha|].
    apply list_elem_of_singleton in Ha. subst a. simpl. rewrite Hrow. eauto.
Qed.

(** A commit that assigns a status other than [sent] to a row without
    [channel_used]. *)
Lemma invariant_after_status n s w :
  store_invariant w → notifications w !! id n = Some n → channel_used n = None →
  s ≠ status_value SENT →
  store_invariant (commit_to n (with_status s n) w).
Proof.
  intros [Hrows Hatt] Hrow Hnone Hs.
  unfold commit_to. destruct (decide (n = with_status s n)); [done|].
  split; simpl.
  - intros k m Hk. destruct (decide (k = id n)) as [->|Hk'].
    + rewrite lookup_insert_eq in Hk. injection Hk as <-.
      destruct (Hrows _ _ Hrow) as [_ Hc]. rewrite Hnone in Hc. destruct Hc as [_ Hsucc].
      split; [reflexivity|]. simpl. rewrite Hnone. done.
    + rewrite lookup_insert_ne in Hk by done. apply Hrows. exact Hk.
  - intros a Ha. apply is_Some_insert_keep. apply Hatt. exact Ha.
Qed.

Lemma invariant_inserted new_id data w :
  store_invariant w → notifications w !! new_id = None →
  store_invariant (inserted new_id data w).
Proof.
  intros [Hrows Hatt] Hfresh. split; simpl.
  - intros k m Hk. destruct (decide (k = new_id)) as [->|Hk'].
    + rewrite lookup_insert_eq in Hk. injection Hk as <-.
      split; [reflexivity|]. simpl. split; [done|].
      destruct (successes new_id (attempts w)) as [|a l] eqn:Hs; [reflexivity|].
      assert (Ha : a ∈ successes new_id (attempts w)) by (rewrite Hs; left).
      apply list_elem_of_filter in Ha as [[Hid _] Hin].
      apply Hatt in Hin. rewrite Hid, Hfresh in Hin. destruct Hin; done.
    + rewrite lookup_insert_ne in Hk by done. apply Hrows. exact Hk.
  - intros a Ha. apply is_Some_insert_keep. apply Hatt. exact Ha.
Qed.

Lemma cascade_invariant self n channels w :
  store_invariant w → notifications w !! id n = Some n → channel_used n = None →
  match cascade self n channels w with
  | (Ok None, w') => store_invariant w' ∧ notifications w' !! id n = Some n
  | (Ok (Some sent), w') => store_invariant w'
  | (Raise _, _) => False
  end.
Proof.
  intros Hinv Hrow Hnone.
  apply (cascade_rule self n
    (λ w', store_invariant w' ∧ notifications w' !! id n = Some n)
    (λ _ w', store_invariant w')); [| |done].
  - intros w1 p c msg _ _ [Hi Hr]. split; [|exact Hr].
    apply invariant_after_failure; [exact Hi | rewrite Hr; eauto].
  - intros w1 p c _ _ [Hi Hr]. apply invariant_after_success; done.
Qed.

Lemma invariant_xadd r p w :
  store_invariant w → store_invariant (xadd r p w).2.
Proof.
  intros H. unfold xadd. destruct (answers r (now w)); simpl;
    (eapply store_invariant_ext; [| |exact H]; reflexivity).
Qed.

Lemma attempt_delivery_invariant self n channels w :
  store_invariant w → notifications w !! id n = Some n → channel_used n = None →
  store_invariant (_attempt_delivery self n channels w).2.
Proof.
  intros Hinv Hrow Hnone. rewrite attempt_delivery_eq.
  pose proof (cascade_invariant self n channels w Hinv Hrow Hnone) as Hc.
  destruct (cascade self n channels w) as [[[sent|]|e] w']; [exact Hc | | done].
  destruct Hc as [Hi Hr]. cbv zeta.
  pose proof (invariant_xadd (redis self)
    (mkPayload (id (committed n (marked_failed n) (now w')))
       (channel_value <$> channels) 1)
    (commit_to n (marked_failed n) w')) as Hx.
  destruct (xadd _ _ _) as [[[]|e] w'']; simpl in *; apply Hx;
    apply invariant_after_status; done.
Qed.

(** [create_and_send], by whether the drawn identifier is free. *)
Lemma create_and_send_eq self new_id data w :
  create_and_send self new_id data w =
    match notifications w !! new_id with
    | Some _ => (Raise IntegrityError, w)
    | None =>
        _attempt_delivery self (new_row new_id data (now w)) (schemas.channels data)
          (inserted new_id data w)
    end.
Proof.
  unfold create_and_send. unfold_M.
  destruct (notifications w !! new_id); reflexivity.
Qed.

Lemma create_and_send_invariant self new_id data w :
  store_invariant w → store_invariant (create_and_send self new_id data w).2.
Proof.
  intros Hinv. rewrite create_and_send_eq.
  destruct (notifications w !! new_id) eqn:Hfresh; [exact Hinv|].
  apply (attempt_delivery_invariant self (new_row new_id data (now w))
           (schemas.channels data) (inserted new_id data w)).
  - apply invariant_inserted; done.
  - simpl. apply lookup_insert_eq.
  - reflexivity.
Qed.

Lemma retry_notification_invariant st self nid channels attempt w :
  store_invariant w →
  store_invariant (retry_notification st self nid channels attempt w).2.
Proof.
  intros Hinv. unfold retry_notification, get_notification. unfold_M.
  destruct (notifications w !! nid) as [n|] eqn:Hn; [|exact Hinv].
  destruct (String.eqb (status n) (status_value SENT)) eqn:Hsent; [exact Hinv|].
  apply String.eqb_neq in Hsent.
  destruct (proj1 Hinv _ _ Hn) as [Hid Hc].
  assert (Hnone : channel_used n = None).
  { destruct (channel_used n); [destruct Hc; done | reflexivity]. }
  assert (Hrow : notifications w !! id n = Some n) by (rewrite Hid; exact Hn).
  rewrite db_commit_eq.
  set (again := with_status (status_value PENDING) n).
  assert (Hi1 : store_invariant (commit_to n again w))
    by (apply invariant_after_status; done).
  assert (Hrow1 : notifications (commit_to n again w) !! id (committed n again (now w))
                  = Some (committed n again (now w))).
  { rewrite committed_id. apply (commit_to_lookup n again w Hrow). reflexivity. }
  assert (Hnone1 : channel_used (committed n again (now w)) = None)
    by (rewrite committed_channel_used; exact Hnone).
  pose proof (attempt_delivery_invariant self _ channels _ Hi1 Hrow1 Hnone1) as Hi2.
  destruct (_attempt_delivery self (committed n again (now w)) channels
              (commit_to n again w)) as [[after|e] w2]; [|exact Hi2].
  simpl in Hi2.
  destruct (String.eqb (status after) (status_value FAILED)
            && (attempt <? max_retry_attempts st)%Z); [|exact Hi2].
  apply invariant_xadd. exact Hi2.
Qed.

Lemma process_invariant st net r mid data w :
  store_invariant w →
  store_invariant (process_retry_message st net r mid data w).2.
Proof.
  intros Hinv. rewrite process_eq.
  destruct (slept_untouched st data w) as (_ & Ha & Hn & _).
  eapply store_invariant_ext; [exact Hn | exact Ha | exact Hinv].
Qed.

Lemma worker_invariant st net r w :
  store_invariant w → store_invariant (retry_worker_turn st net r w).2.
Proof.
  intros Hinv. unfold retry_worker_turn, xreadgroup. unfold_M.
  destruct (answers r (now w)); [|exact Hinv].
  destruct (stream w !! delivered w) as [entry|]; [|exact Hinv].
  pose proof (process_invariant st net r (delivered w) entry
    (tick 1 (set_group (S (delivered w)) (pending w ++ [delivered w]) w))) as Hp.
  destruct (process_retry_message _ _ _ _ _ _) as [[[]|e] w1]; simpl in *;
    apply Hp, Hinv.
Qed.

Lemma unsent_no_channel w n :
  store_invariant w → notifications w !! id n = Some n →
  status n ≠ status_value SENT → channel_used n = None.
Proof.
  intros [Hrows _] Hrow Hns. destruct (Hrows _ _ Hrow) as [_ Hc].
  destruct (channel_used n); [destruct Hc; done | reflexivity].
Qed.

(** The worlds between the commits of a round are the worlds the loop
    leaves on the prefixes of the channel list. *)
Lemma cascade_app self n pre post : ∀ w,
  cascade self n (pre ++ post) w =
    match cascade self n pre w with
    | (Ok None, w1) => cascade self n post w1
    | r => r
    end.
Proof.
  induction pre as [|c pre IH]; intros w; [reflexivity|].
  simpl app. destruct (providers self !! c) as [p|] eqn:Hp.
  - destruct (send p (recipient n) (message n) (now w)) as [msg|] eqn:Hs.
    + rewrite !(cascade_failure _ _ _ _ _ _ _ Hp Hs). apply IH.
    + rewrite !(cascade_success _ _ _ _ _ _ Hp Hs). reflexivity.
  - rewrite !(cascade_skip _ _ _ _ _ Hp). apply IH.
Qed.

Lemma reachable_invariant w : reachable w → store_invariant w.
Proof.
  unfold reachable. intros H.
  assert (Hgen : ∀ w0, store_invariant w0 → rtc step w0 w → store_invariant w).
  { clear H. intros w0 H0 Hsteps. induction Hsteps as [|w1 w2 w3 Hstep _ IH]; [exact H0|].
    apply IH. destruct Hstep as [| |self n channels w1 Hrow Hns|self n channels w1 Hrow Hns
                               |n w1 Hrow Hns| | |].
    - apply invariant_inserted; done.
    - apply create_and_send_invariant; done.
    - pose proof (cascade_invariant self n channels w1 H0 Hrow
                    (unsent_no_channel w1 n H0 Hrow Hns)) as Hc.
      destruct (cascade self n channels w1) as [[[sent|]|e] w']; simpl; tauto.
    - apply attempt_delivery_invariant; [done | done |].
      apply (unsent_no_channel w1 n H0 Hrow Hns).
    - apply invariant_after_status; [done | done | | done].
      apply (unsent_no_channel w1 n H0 Hrow Hns).
    - apply retry_notification_invariant; done.
    - apply process_invariant; done.
    - apply worker_invariant; done. }
  apply (Hgen empty_world); [|exact H].
  split; simpl.
  - intros k n Hk. rewrite lookup_empty in Hk. done.
  - intros a Ha. apply elem_of_nil in Ha. done.
Qed.

(** C7.  In every world the service reaches from the empty store by its
    committed operations (a create, a delivery round or any commit inside
    it, a retry round, a worker turn), a notification has [channel_used]
    exactly when its status is [sent], and then it has one success
    attempt, whose channel is [channel_used]. *)
Theorem channel_used_iff_sent w k n :
  reachable w →
  notifications w !! k = Some n →
  (channel_used n ≠ None ↔ status n = status_value SENT)
  ∧ (∀ c, channel_used n = Some c →
          ∃ a, successes k (attempts w) = [a] ∧ channel a = c).
Proof.
  intros Hreach Hk.
  destruct (reachable_invariant w Hreach) as [Hrows _].
  destruct (Hrows k n Hk) as [_ Hc].
  destruct (channel_used n) as [c|].
  - destruct Hc as [Hs Ha]. split; [split; done|].
    intros c' [= <-]. exact Ha.
  - destruct Hc as [Hs _]. split; [split; done | done].
Qed.

(** ** A failing enqueue (C6) *)

(** The POST route: 422 before the handler when validation fails; else
    the handler runs [create_and_send] and never gets to its [return],
    the queue's error or the lazy load of the attempts leaving it as an
    exception. *)
Lemma create_notification_eq st net r new_id body w :
  create_notification st net r new_id body w =
    match validate body with
    | None => (mkResponse 422 None, w)
    | Some data =>
        (mkResponse 500 None,
         (create_and_send (NotificationService_init st net r) new_id data w).2)
    end.
Proof.
  unfold create_notification, lazy_attempts. unfold_M.
  destruct (validate body) as [data|]; [|reflexivity].
  destruct (create_and_send (NotificationService_init st net r) new_id data w)
    as [[n|e] w']; reflexivity.
Qed.

(** C6, as claimed, fails: e-mail failing and Redis not answering, the
    create-and-send request raises the Redis error to its caller, and the
    route answers 500; the caller is not handed the [failed] notification. *)
Lemma enqueue_failure_reaches_caller :
  (create_and_send (failing_email_service redis_down) 7
     (schemas.mkCreate "a@b.c" "hi" [EMAIL] []) empty_world).1 = Raise RedisError
  ∧ status_code
      (create_notification (settings_smtp 3) smtp_down redis_down 7
         (mkBody "a@b.c" "hi" (Some ["email"]) None) empty_world).1 = 500
  ∧ ¬ ∃ n,
        (create_and_send (failing_email_service redis_down) 7
           (schemas.mkCreate "a@b.c" "hi" [EMAIL] []) empty_world).1 = Ok n
        ∧ status n = status_value FAILED.
Proof.
  assert (H : (create_and_send (failing_email_service redis_down) 7
                 (schemas.mkCreate "a@b.c" "hi" [EMAIL] []) empty_world).1
              = Raise RedisError) by (vm_compute; reflexivity).
  split; [exact H|]. split; [vm_compute; reflexivity|].
  intros (n & Hn & _). rewrite H in Hn. discriminate Hn.
Qed.

(** C6, as the code has it.  When every channel of a create-and-send
    request fails and Redis does not answer the enqueue, the Redis error
    is raised to the caller of [create_and_send], and the route answers
    500.  The notification stays in the store with status [failed] and one
    failure attempt per channel, and the queue is left as it was. *)
Theorem enqueue_failure_propagates self new_id data w :
  notifications w !! new_id = None →
  all_fail self (new_row new_id data (now w)) (schemas.channels data) (now w) = true →
  answers (redis self) (length (schemas.channels data) + now w) = false →
  ∃ w',
    create_and_send self new_id data w = (Raise RedisError, w')
    ∧ (∃ failed, notifications w' !! new_id = Some failed
                 ∧ status failed = status_value FAILED)
    ∧ tried self (new_row new_id data (now w)) (schemas.channels data)
            (replicate (length (schemas.channels data)) false) w w'
    ∧ stream w' = stream w
    ∧ (∀ st net body,
         self = NotificationService_init st net (redis self) →
         validate body = Some data →
         create_notification st net (redis self) new_id body w
           = (mkResponse 500 None, w')).
Proof.
  intros Hfresh Hall Hdown.
  set (n := new_row new_id data (now w)) in *.
  assert (Hrow : notifications (inserted new_id data w) !! id n = Some n)
    by (simpl; apply lookup_insert_eq).
  destruct (cascade_all_fail self n (schemas.channels data) (inserted new_id data w) Hall)
    as (w1 & Heq & Htr & Hn & Hst & _ & _ & Hnow).
  pose proof (commit_to_rest n (marked_failed n) w1) as (Ha & Hs' & _ & _ & Hcalls & Hnow').
  assert (Hrun : create_and_send self new_id data w
                 = (Raise RedisError, tick 1 (commit_to n (marked_failed n) w1))).
  { rewrite create_and_send_eq, Hfresh. fold n.
    rewrite attempt_delivery_eq, Heq. cbv zeta. unfold xadd.
    rewrite Hnow', Hnow. simpl now. rewrite Hdown. reflexivity. }
  eexists. split; [exact Hrun|]. split; [|split; [|split]].
  - exists (committed n (marked_failed n) (now w1)). split.
    + simpl. apply (commit_to_lookup n (marked_failed n) w1); [|reflexivity].
      rewrite Hn. exact Hrow.
    + rewrite committed_status. reflexivity.
  - destruct Htr as (new & new_calls & H1 & H2 & H3 & H4 & H5 & H6).
    exists new, new_calls. simpl. rewrite Ha, Hcalls. done.
  - simpl. rewrite Hs', Hst. reflexivity.
  - intros st net body Hself Hval.
    rewrite create_notification_eq, Hval, <- Hself, Hrun. reflexivity.
Qed.

Lemma enqueue_failure_propagates_witness :
  ∃ w',
    create_and_send (failing_email_service redis_down) 7
      (schemas.mkCreate "a@b.c" "hi" [EMAIL; EMAIL] []) empty_world
      = (Raise RedisError, w')
    ∧ (∃ failed, notifications w' !! 7%N = Some failed
                 ∧ status failed = status_value FAILED)
    ∧ stream w' = stream empty_world.
Proof.
  destruct (enqueue_failure_propagates (failing_email_service redis_down) 7
              (schemas.mkCreate "a@b.c" "hi" [EMAIL; EMAIL] []) empty_world
              eq_refl eq_refl eq_refl)
    as (w' & H1 & H2 & _ & H3 & _).
  exists w'. split; [exact H1|]. split; [exact H2 | exact H3].
Defined.

(** ** Validation of a create request (C8) *)

(** C8, on the code.  A request whose recipient has 256 characters
    passes validation with its recipient as it is, and the route does not
    answer 422: [NotificationCreate.recipient] has no [max_length]. *)
Theorem long_recipient_passes_validation :
  String.length long_recipient = 256
  ∧ validate (mkBody long_recipient "hi" (Some ["email"]) None)
    = Some (schemas.mkCreate long_recipient "hi" [EMAIL] [])
  ∧ status_code
      (create_notification settings_mock smtp_down redis_up 7
         (mkBody long_recipient "hi" (Some ["email"]) None) empty_world).1 ≠ 422.
Proof. vm_compute. repeat split. discriminate. Qed.

(** X17.  Validation at the POST route.  A request whose message is empty
    or longer than 10000 characters, or whose channel list is empty or
    holds an unknown tag, is answered 422 and the world is left as it
    was.  Any other request passes validation whatever the length of its
    recipient and reaches [create_and_send] with the fields it carried;
    the handler then fails on the attempts it reads, and the route
    answers 500. *)
Theorem create_validation st net r new_id body w :
  ((String.length (body_message body) = 0
    ∨ (10000 < Z.of_nat (String.length (body_message body)))%Z) →
     create_notification st net r new_id body w = (mkResponse 422 None, w))
  ∧ (∀ tags,
       body_channels body = Some tags →
       mapM DeliveryChannel_of_value tags = None
       ∨ mapM DeliveryChannel_of_value tags = Some [] →
       create_notification st net r new_id body w = (mkResponse 422 None, w))
  ∧ (String.length (body_message body) ≠ 0 →
     (Z.of_nat (String.length (body_message body)) ≤ 10000)%Z →
     (body_channels body = None
      ∨ ∃ tags c channels,
          body_channels body = Some tags
          ∧ mapM DeliveryChannel_of_value tags = Some (c :: channels)) →
     ∃ data,
       validate body = Some data
       ∧ schemas.recipient data = body_recipient body
       ∧ schemas.message data = body_message body
       ∧ create_notification st net r new_id body w
         = (mkResponse 500 None,
            (create_and_send (NotificationService_init st net r) new_id data w).2)).
Proof.
  rewrite create_notification_eq. split; [|split].
  - intros Hlen. unfold validate.
    destruct Hlen as [Hlen|Hlen].
    + rewrite Hlen. reflexivity.
    + replace (Z.of_nat (String.length (body_message body)) <=? 10000)%Z with false
        by (symmetry; apply Z.leb_gt; exact Hlen).
      rewrite andb_false_r. reflexivity.
  - intros tags Htags Hbad. unfold validate. rewrite Htags.
    destruct ((1 <=? _)%Z && _); [|reflexivity].
    destruct Hbad as [->| ->]; reflexivity.
  - intros Hne Hle Hch.
    assert (Hmsg : (1 <=? Z.of_nat (String.length (body_message body)))%Z
                   && (Z.of_nat (String.length (body_message body)) <=? 10000)%Z = true).
    { apply andb_true_intro. split; apply Z.leb_le; lia. }
    unfold validate. rewrite Hmsg.
    destruct Hch as [-> | (tags & c & channels & -> & ->)].
    + eexists. repeat split.
    + simpl length.
      replace (1 <=? Z.of_nat (S (length channels)))%Z with true
        by (symmetry; apply Z.leb_le; lia).
      eexists. repeat split.
Qed.

Lemma create_validation_witness :
  create_notification settings_mock smtp_down redis_up 7
    (mkBody "a@b.c" "" (Some ["email"]) None) empty_world
    = (mkResponse 422 None, empty_world)
  ∧ create_notification settings_mock smtp_down redis_up 7
      (mkBody "a@b.c" "hi" (Some []) None) empty_world
    = (mkResponse 422 None, empty_world)
  ∧ ∃ data,
      validate (mkBody long_recipient "hi" (Some ["email"]) None) = Some data
      ∧ schemas.recipient data = long_recipient.
Proof.
  split; [|split].
  - apply (proj1 (create_validation settings_mock smtp_down redis_up 7
                    (mkBody "a@b.c" "" (Some ["email"]) None) empty_world)).
    left. reflexivity.
  - apply (proj1 (proj2 (create_validation settings_mock smtp_down redis_up 7
                           (mkBody "a@b.c" "hi" (Some []) None) empty_world))
             [] eq_refl).
    right. reflexivity.
  - destruct (proj2 (proj2 (create_validation settings_mock smtp_down redis_up 7
                              (mkBody long_recipient "hi" (Some ["email"]) None)
                              empty_world)))
      as (data & Hv & Hr & _).
    + simpl. discriminate.
    + simpl. lia.
    + right. exists ["email"], EMAIL, []. split; reflexivity.
    + exists data. split; [exact Hv | exact Hr].
Defined.

(** ** C1 and C2: what a failing retry round enqueues *)

(** C2, on the code.  With [max_retry_attempts = 1], e-mail still failing,
    [retry_notification] is called with the identifier of the failed
    notification, its channel list and attempt 1, which is the cap: the
    call returns, the notification stays [failed], and the queue holds a
    new retry record, of attempt 1, appended by the delivery round the
    retry ran. *)
Theorem retry_at_cap_enqueues_again :
  stream after_first_round = [mkPayload 7 ["email"] 1]
  ∧ max_retry_attempts (settings_smtp 1) = 1%Z
  ∧ (retry_notification (settings_smtp 1)
       (NotificationService_init (settings_smtp 1) smtp_down redis_up)
       7 [EMAIL] 1 after_first_round).1 = Ok tt
  ∧ stream (retry_notification (settings_smtp 1)
              (NotificationService_init (settings_smtp 1) smtp_down redis_up)
              7 [EMAIL] 1 after_first_round).2
    = [mkPayload 7 ["email"] 1; mkPayload 7 ["email"] 1]
  ∧ status <$> (notifications
                  (retry_notification (settings_smtp 1)
                     (NotificationService_init (settings_smtp 1) smtp_down redis_up)
                     7 [EMAIL] 1 after_first_round).2 !! 7%N)
    = Some (status_value FAILED).
Proof. vm_compute. repeat split. Qed.

(** C1, on the code.  With [max_retry_attempts = 3], e-mail still failing,
    [retry_notification] is called with the identifier of the failed
    notification, its channel list and attempt 1: the records enqueued
    for the notification carry the attempts 1, then 1 again, then 2, so
    the second is not greater than the first. *)
Theorem retry_round_enqueues_attempt_one_again :
  payload_notification_id
    <$> stream (retry_notification (settings_smtp 3) (failing_email_service redis_up)
                  7 [EMAIL] 1 after_first_round).2
    = [7%N; 7%N; 7%N]
  ∧ payload_attempt
      <$> stream (retry_notification (settings_smtp 3) (failing_email_service redis_up)
                    7 [EMAIL] 1 after_first_round).2
    = [1%Z; 1%Z; 2%Z]
  ∧ ¬ (∀ i j a b,
         i < j →
         (payload_attempt
            <$> stream (retry_notification (settings_smtp 3)
                          (failing_email_service redis_up)
                          7 [EMAIL] 1 after_first_round).2) !! i = Some a →
         (payload_attempt
            <$> stream (retry_notification (settings_smtp 3)
                          (failing_email_service redis_up)
                          7 [EMAIL] 1 after_first_round).2) !! j = Some b →
         (a < b)%Z).
Proof.
  assert (H : payload_attempt
                <$> stream (retry_notification (settings_smtp 3)
                              (failing_email_service redis_up)
                              7 [EMAIL] 1 after_first_round).2
              = [1%Z; 1%Z; 2%Z]) by (vm_compute; reflexivity).
  split; [vm_compute; reflexivity|]. split; [exact H|].
  rewrite H. intros Hmono.
  specialize (Hmono 0 1 1%Z 1%Z ltac:(lia) eq_refl eq_refl). lia.
Qed.

Lemma all_fail_same_body self n n' channels : ∀ t,
  recipient n' = recipient n → message n' = message n →
  all_fail self n' channels t = all_fail self n channels t.
Proof.
  induction channels as [|c rest IH]; intros t Hr Hm; [reflexivity|].
  simpl. rewrite IH by done. unfold fails_at. rewrite Hr, Hm. reflexivity.
Qed.

(** In general: a retry round in which every channel fails again appends
    a record of attempt 1, whatever the attempt of the record processed,
    and after it the record of the next attempt when the cap allows. *)
Lemma failing_retry_enqueues st self nid channels attempt w n :
  notifications w !! nid = Some n → id n = nid →
  status n ≠ status_value SENT →
  all_fail self n channels (now w) = true →
  answers (redis self) (length channels + now w) = true →
  answers (redis self) (S (length channels + now w)) = true →
  stream (retry_notification st self nid channels attempt w).2
  = stream w ++ mkPayload nid (channel_value <$> channels) 1
      :: (if (attempt <? max_retry_attempts st)%Z
          then [mkPayload nid (channel_value <$> channels) (attempt + 1)]
          else []).
Proof.
  intros Hn Hid Hns Hall Hup1 Hup2.
  unfold retry_notification, get_notification. unfold_M. rewrite Hn.
  apply String.eqb_neq in Hns. rewrite Hns. rewrite db_commit_eq.
  set (again := with_status (status_value PENDING) n).
  set (n1 := committed n again (now w)).
  set (w1 := commit_to n again w).
  destruct (commit_to_rest n again w) as (_ & Hs1 & _ & _ & _ & Hnow1).
  fold w1 in Hs1, Hnow1.
  assert (Hall1 : all_fail self n1 channels (now w1) = true).
  { rewrite Hnow1. rewrite (all_fail_same_body self n n1); [exact Hall| |];
      apply (committed_fields n again (now w)). }
  destruct (cascade_all_fail self n1 channels w1 Hall1)
    as (w2 & Heq & _ & _ & Hs2 & _ & _ & Hnow2).
  rewrite attempt_delivery_eq, Heq. cbv zeta.
  destruct (commit_to_rest n1 (marked_failed n1) w2) as (_ & Hs3 & _ & _ & _ & Hnow3).
  unfold xadd at 1. rewrite Hnow3, Hnow2, Hnow1, Hup1.
  rewrite committed_status. simpl String.eqb.
  assert (Hid1 : id (committed n1 (marked_failed n1) (length channels + now w)) = nid).
  { rewrite committed_id. simpl. unfold n1. rewrite committed_id. exact Hid. }
  rewrite Hid1.
  destruct (attempt <? max_retry_attempts st)%Z; simpl.
  - unfold xadd. simpl. rewrite Hnow3, Hnow2, Hnow1, Hup2. simpl.
    rewrite Hs3, Hs2, Hs1, <- app_assoc. reflexivity.
  - rewrite Hs3, Hs2, Hs1. reflexivity.
Qed.

(** ** The properties on the scenarios *)

Lemma reachable_well_keyed w : reachable w → well_keyed w.
Proof.
  intros H k n Hk. destruct (reachable_invariant w H) as [Hrows _].
  apply (Hrows k n Hk).
Qed.

Lemma after_first_round_reachable : reachable after_first_round.
Proof. apply rtc_once. apply step_create_and_send. Qed.

Lemma settled_retry_is_dropped_witness :
  (untouched empty_world
     (process_retry_message settings_mock smtp_down redis_up 0
        (mkPayload 9 ["email"] 1) empty_world).2
   ∧ retry_notification settings_mock
       (NotificationService_init settings_mock smtp_down redis_up) 9 [EMAIL] 1
       empty_world
     = (Ok tt, empty_world))
  ∧ (status <$> notifications
       (retry_notification settings_mock
          (NotificationService_init settings_mock smtp_down redis_up) 7 [EMAIL] 1
          after_first_round).2 !! 7%N
     = Some (status_value SENT)
     ∧ retry_notification settings_mock
         (NotificationService_init settings_mock smtp_down redis_up) 7 [EMAIL] 1
         (retry_notification settings_mock
            (NotificationService_init settings_mock smtp_down redis_up) 7 [EMAIL] 1
            after_first_round).2
       = (Ok tt,
          (retry_notification settings_mock
             (NotificationService_init settings_mock smtp_down redis_up) 7 [EMAIL] 1
             after_first_round).2)).
Proof.
  split.
  - destruct (proj1 (settled_retry_is_dropped settings_mock smtp_down redis_up 0
                       (mkPayload 9 ["email"] 1) empty_world) I) as [H1 H2].
    split; [exact H1|].
    apply (H2 (NotificationService_init settings_mock smtp_down redis_up) [EMAIL]).
  - split; [vm_compute; reflexivity|].
    eapply (proj1 (proj2 (settled_retry_is_dropped settings_mock smtp_down redis_up 0
                            (mkPayload 7 ["email"] 1) after_first_round))
              (NotificationService_init settings_mock smtp_down redis_up) [EMAIL]).
    + vm_compute. reflexivity.
    + reflexivity.
Defined.

Lemma channel_used_iff_sent_witness :
  ∃ n,
    notifications after_mock_send !! 7%N = Some n
    ∧ status n = status_value SENT
    ∧ (channel_used n ≠ None ↔ status n = status_value SENT)
    ∧ (∀ c, channel_used n = Some c →
            ∃ a, successes 7 (attempts after_mock_send) = [a] ∧ channel a = c).
Proof.
  eexists. split; [vm_compute; reflexivity|]. split; [reflexivity|].
  apply (channel_used_iff_sent after_mock_send 7).
  - apply rtc_once. apply step_create_and_send.
  - vm_compute. reflexivity.
Defined.




(** * Further properties of the code *)

(** ** Channel tags *)

Lemma channel_reads_back c : DeliveryChannel_of_value (channel_value c) = Some c.
Proof. destruct c; reflexivity. Qed.

Lemma only_values_read_back s c :
  DeliveryChannel_of_value s = Some c → s = channel_value c.
Proof.
  unfold DeliveryChannel_of_value.
  destruct (String.eqb_spec s "email") as [->|_]; [intros [= <-]; reflexivity|].
  destruct (String.eqb_spec s "sms") as [->|_]; [intros [= <-]; reflexivity|].
  destruct (String.eqb_spec s "telegram") as [->|_]; [intros [= <-]; reflexivity|].
  discriminate.
Qed.

Lemma decode_written channels :
  mapM DeliveryChannel_of_value (channel_value <$> channels) = Some channels.
Proof.
  induction channels as [|c rest IH]; [reflexivity|].
  rewrite fmap_cons. cbn [mapM]. rewrite channel_reads_back. simpl. rewrite IH.
  reflexivity.
Qed.

Lemma decoded_tags tags channels :
  mapM DeliveryChannel_of_value tags = Some channels →
  channel_value <$> channels = tags.
Proof.
  intros Hm. apply mapM_Some_1 in Hm.
  induction Hm as [|tag d tags0 ds Hd _ IH]; [reflexivity|].
  rewrite fmap_cons, IH. f_equal. symmetry. apply only_values_read_back. exact Hd.
Qed.

(** X1.  The value of a channel reads back as that channel, and only
    values of channels read back; so the channel list the service writes
    into a retry record is the list the worker decodes, and the tags the
    worker decodes are the values of the channels it gets. *)
Theorem channel_tags_round_trip :
  (∀ c, DeliveryChannel_of_value (channel_value c) = Some c)
  ∧ (∀ s c, DeliveryChannel_of_value s = Some c → s = channel_value c)
  ∧ (∀ channels,
       mapM DeliveryChannel_of_value (channel_value <$> channels) = Some channels)
  ∧ (∀ tags channels,
       mapM DeliveryChannel_of_value tags = Some channels →
       channel_value <$> channels = tags).
Proof.
  split; [exact channel_reads_back|].
  split; [exact only_values_read_back|].
  split; [exact decode_written | exact decoded_tags].
Qed.

(** ** The operations as sequences of effects *)

Lemma commit_to_keys old new w k :
  is_Some (notifications w !! k) →
  is_Some (notifications (commit_to old new w) !! k).
Proof.
  intros H. unfold commit_to. destruct (decide (old = new)); [exact H|].
  simpl. apply is_Some_insert_keep. exact H.
Qed.

Lemma xadd_effects r p w0 w :
  rtc effect w0 w → writable p w → rtc effect w0 (xadd r p w).2.
Proof.
  intros H Hp. unfold xadd. destruct (answers r (now w)); simpl.
  - eapply rtc_r; [eapply rtc_r; [exact H|]|].
    + apply effect_xadd. exact Hp.
    + apply (effect_tick 1).
  - eapply rtc_r; [exact H | apply effect_tick].
Qed.

Lemma cascade_effects self n channels w0 w :
  rtc effect w0 w →
  notifications w !! id n = Some n → status n ≠ status_value SENT →
  match cascade self n channels w with
  | (Ok None, w') => rtc effect w0 w' ∧ notifications w' !! id n = Some n
  | (Ok (Some sent), w') =>
      rtc effect w0 w' ∧ notifications w' !! id n = Some sent
  | (Raise _, _) => False
  end.
Proof.
  intros H Hrow Hns.
  apply (cascade_rule self n
    (λ w', rtc effect w0 w' ∧ notifications w' !! id n = Some n)
    (λ sent w', rtc effect w0 w' ∧ notifications w' !! id n = Some sent)); [| |done].
  - intros w1 p c msg _ _ [H1 Hr]. split; [|exact Hr].
    eapply rtc_r; [exact H1 | apply effect_failure; done].
  - intros w1 p c _ _ [H1 Hr]. split.
    + eapply rtc_r; [exact H1 | apply effect_success; done].
    + apply (commit_to_lookup n (sent_via c n) (after_success p n c w1)); [exact Hr|].
      reflexivity.
Qed.

Lemma attempt_delivery_effects self n channels w0 w :
  rtc effect w0 w →
  notifications w !! id n = Some n → status n ≠ status_value SENT →
  rtc effect w0 (_attempt_delivery self n channels w).2
  ∧ is_Some (notifications (_attempt_delivery self n channels w).2 !! id n).
Proof.
  intros H Hrow Hns. rewrite attempt_delivery_eq.
  pose proof (cascade_effects self n channels w0 w H Hrow Hns) as Hc.
  destruct (cascade self n channels w) as [[[sent|]|e] w']; [| |done].
  - destruct Hc as [H1 H2]. simpl. split; [exact H1 | rewrite H2; eauto].
  - destruct Hc as [H1 Hr]. cbv zeta.
    set (payload := mkPayload (id (committed n (marked_failed n) (now w')))
                      (channel_value <$> channels) 1).
    assert (H2 : rtc effect w0 (commit_to n (marked_failed n) w')).
    { eapply rtc_r; [exact H1|]. apply effect_status; [done | done | right; reflexivity]. }
    assert (Hsome : is_Some (notifications (commit_to n (marked_failed n) w') !! id n)).
    { apply commit_to_keys. rewrite Hr. eauto. }
    assert (Hw : writable payload (commit_to n (marked_failed n) w')).
    { split; [|exists channels; reflexivity]. simpl. rewrite committed_id. exact Hsome. }
    pose proof (xadd_effects (redis self) payload w0 _ H2 Hw) as Hx.
    assert (Hk : is_Some (notifications
                   (xadd (redis self) payload (commit_to n (marked_failed n) w')).2
                   !! id n)).
    { unfold xadd. destruct (answers _ _); exact Hsome. }
    destruct (xadd _ _ _) as [[[]|e] w'']; simpl in *; done.
Qed.

Lemma create_and_send_effects self new_id data w0 w :
  rtc effect w0 w → rtc effect w0 (create_and_send self new_id data w).2.
Proof.
  intros H. rewrite create_and_send_eq.
  destruct (notifications w !! new_id) eqn:Hfresh; [exact H|].
  apply attempt_delivery_effects.
  - eapply rtc_r; [exact H | apply effect_insert; exact Hfresh].
  - simpl. apply lookup_insert_eq.
  - discriminate.
Qed.

Lemma retry_notification_effects st self nid channels attempt w0 w :
  well_keyed w → rtc effect w0 w →
  rtc effect w0 (retry_notification st self nid channels attempt w).2.
Proof.
  intros Hkey H. unfold retry_notification, get_notification. unfold_M.
  destruct (notifications w !! nid) as [n|] eqn:Hn; [|exact H].
  destruct (String.eqb (status n) (status_value SENT)) eqn:Hsent; [exact H|].
  apply String.eqb_neq in Hsent.
  assert (Hid : id n = nid) by (apply Hkey; exact Hn).
  assert (Hrow : notifications w !! id n = Some n) by (rewrite Hid; exact Hn).
  rewrite db_commit_eq.
  set (again := with_status (status_value PENDING) n).
  assert (H1 : rtc effect w0 (commit_to n again w)).
  { eapply rtc_r; [exact H|]. apply effect_status; [done | done | left; reflexivity]. }
  assert (Hrow1 : notifications (commit_to n again w) !! id (committed n again (now w))
                  = Some (committed n again (now w))).
  { rewrite committed_id. apply (commit_to_lookup n again w Hrow). reflexivity. }
  assert (Hns1 : status (committed n again (now w)) ≠ status_value SENT)
    by (rewrite committed_status; discriminate).
  destruct (attempt_delivery_effects self (committed n again (now w)) channels w0
              (commit_to n again w) H1 Hrow1 Hns1) as [H2 Hsome].
  rewrite committed_id in Hsome. simpl in Hsome. rewrite Hid in Hsome.
  destruct (_attempt_delivery self (committed n again (now w)) channels
              (commit_to n again w)) as [[after|e] w2]; [|exact H2].
  simpl in H2, Hsome.
  destruct (String.eqb (status after) (status_value FAILED)
            && (attempt <? max_retry_attempts st)%Z); [|exact H2].
  apply xadd_effects; [exact H2|].
  split; [exact Hsome | exists channels; reflexivity].
Qed.

Lemma process_effects st net r mid data w0 w :
  well_keyed w → rtc effect w0 w →
  rtc effect w0 (process_retry_message st net r mid data w).2.
Proof.
  intros _ H. rewrite process_eq. unfold slept. simpl.
  destruct (mapM DeliveryChannel_of_value (payload_channels data)); [|exact H].
  destruct (retry_backoff st (payload_attempt data)); [|exact H].
  eapply rtc_r; [exact H | apply effect_tick].
Qed.

Lemma worker_effects st net r w0 w :
  well_keyed w → rtc effect w0 w →
  rtc effect w0 (retry_worker_turn st net r w).2.
Proof.
  intros Hkey H. unfold retry_worker_turn, xreadgroup. unfold_M.
  destruct (answers r (now w)).
  - destruct (stream w !! delivered w) as [entry|].
    + set (w1 := tick 1 (set_group (S (delivered w)) (pending w ++ [delivered w]) w)).
      assert (H1 : rtc effect w0 w1).
      { eapply rtc_r; [eapply rtc_r; [exact H | apply effect_group]
                      | apply (effect_tick 1)]. }
      pose proof (process_effects st net r (delivered w) entry w0 w1 Hkey H1) as Hp.
      destruct (process_retry_message _ _ _ _ _ _) as [[[]|e] w2]; simpl in *.
      * exact Hp.
      * eapply rtc_r; [exact Hp | apply effect_tick].
    + simpl. eapply rtc_r; [exact H | apply effect_tick].
  - simpl. eapply rtc_r; [eapply rtc_r; [exact H | apply effect_tick] | apply effect_tick].
Qed.

Lemma commit_to_well_keyed old new w :
  well_keyed w → well_keyed (commit_to old new w).
Proof.
  intros Hkey. unfold commit_to. destruct (decide (old = new)); [exact Hkey|].
  intros k m Hk. simpl in Hk. destruct (decide (k = id new)) as [->|Hne].
  - rewrite lookup_insert_eq in Hk. injection Hk as <-. reflexivity.
  - rewrite lookup_insert_ne in Hk by done. apply Hkey. exact Hk.
Qed.

Lemma effect_well_keyed w w' : well_keyed w → effect w w' → well_keyed w'.
Proof.
  intros Hkey He. destruct He; try exact Hkey.
  - intros k m Hk. simpl in Hk. destruct (decide (k = new_id)) as [->|Hne].
    + rewrite lookup_insert_eq in Hk. injection Hk as <-. reflexivity.
    + rewrite lookup_insert_ne in Hk by done. apply Hkey. exact Hk.
  - apply commit_to_well_keyed. exact Hkey.
  - apply commit_to_well_keyed. exact Hkey.
Qed.

(** What every effect keeps, every sequence of effects keeps. *)
Lemma effects_keep (P : World → Prop) :
  (∀ w w', P w → effect w w' → P w') →
  ∀ w w', P w → rtc effect w w' → P w'.
Proof.
  intros Hstep w w' HP Hrtc. induction Hrtc as [|w1 w2 w3 He _ IH]; [exact HP|].
  apply IH. eapply Hstep; [exact HP | exact He].
Qed.

Lemma step_effects w w' : well_keyed w → step w w' → rtc effect w w'.
Proof.
  intros Hkey Hstep. destruct Hstep.
  - apply rtc_once. apply effect_insert. done.
  - apply create_and_send_effects. apply rtc_refl.
  - pose proof (cascade_effects self n channels w w (rtc_refl _ _) H H0) as Hc.
    destruct (cascade self n channels w) as [[[sent|]|e] w']; simpl; tauto.
  - apply attempt_delivery_effects; [apply rtc_refl | done | done].
  - apply rtc_once. apply effect_status; [done | done | left; reflexivity].
  - apply retry_notification_effects; [exact Hkey | apply rtc_refl].
  - apply process_effects; [exact Hkey | apply rtc_refl].
  - apply worker_effects; [exact Hkey | apply rtc_refl].
Qed.

Lemma steps_effects w w' : well_keyed w → rtc step w w' → rtc effect w w'.
Proof.
  intros Hkey Hrtc. induction Hrtc as [|w1 w2 w3 Hs _ IH]; [apply rtc_refl|].
  pose proof (step_effects w1 w2 Hkey Hs) as H12.
  etrans; [exact H12|]. apply IH.
  apply (effects_keep well_keyed effect_well_keyed w1 w2 Hkey H12).
Qed.

Lemma empty_well_keyed : well_keyed empty_world.
Proof. intros k n H. simpl in H. rewrite lookup_empty in H. discriminate H. Qed.

Lemma reachable_effects w : reachable w → rtc effect empty_world w.
Proof. apply steps_effects. apply empty_well_keyed. Qed.

(** ** What the rows, the attempts and the queue always hold *)

Lemma effect_keys w w' k :
  is_Some (notifications w !! k) → effect w w' → is_Some (notifications w' !! k).
Proof.
  intros H He. destruct He; try exact H.
  - simpl. apply is_Some_insert_keep. exact H.
  - apply commit_to_keys. exact H.
  - apply commit_to_keys. exact H.
Qed.

Lemma channel_value_tag c : channel_tag (channel_value c).
Proof. exists c. reflexivity. Qed.

Lemma well_typed_commit n new w :
  well_typed w →
  (∃ s, status new = status_value s) →
  (∀ tag, channel_used new = Some tag → channel_tag tag) →
  well_typed (commit_to n new w).
Proof.
  intros [Hrows Hatt] Hs Hc. unfold commit_to. destruct (decide (n = new)); [done|].
  split; [|exact Hatt]. intros k m Hk. simpl in Hk.
  destruct (decide (k = id new)) as [->|Hne].
  - rewrite lookup_insert_eq in Hk. injection Hk as <-. split; [exact Hs | exact Hc].
  - rewrite lookup_insert_ne in Hk by done. apply (Hrows k m Hk).
Qed.

Lemma well_typed_snoc w w' a :
  well_typed w → notifications w' = notifications w →
  attempts w' = attempts w ++ [a] → channel_tag (channel a) → well_typed w'.
Proof.
  intros [Hrows Hatt] Hn Ha Hch. unfold well_typed. rewrite Hn, Ha.
  split; [exact Hrows|]. apply Forall_app. split; [exact Hatt|].
  constructor; [exact Hch | constructor].
Qed.

Lemma effect_well_typed w w' : well_typed w → effect w w' → well_typed w'.
Proof.
  intros Hty He. destruct He as [new_id data w Hfresh|p n c msg w Hrow Hns|p n c w Hrow Hns
                                 |n s w Hrow Hns Hs| | |]; try exact Hty.
  - destruct Hty as [Hrows Hatt]. split; [|exact Hatt]. intros k m Hk. simpl in Hk.
    destruct (decide (k = new_id)) as [->|Hne].
    + rewrite lookup_insert_eq in Hk. injection Hk as <-.
      split; [exists PENDING; reflexivity | discriminate].
    + rewrite lookup_insert_ne in Hk by done. apply (Hrows k m Hk).
  - eapply well_typed_snoc; [exact Hty | reflexivity | reflexivity |].
    apply channel_value_tag.
  - apply well_typed_commit.
    + eapply well_typed_snoc; [exact Hty | reflexivity | reflexivity |].
      apply channel_value_tag.
    + exists SENT. reflexivity.
    + intros tag [= <-]. apply channel_value_tag.
  - apply well_typed_commit; [exact Hty | |].
    + destruct Hs as [-> | ->]; [exists PENDING | exists FAILED]; reflexivity.
    + simpl. apply (proj1 Hty (id n) n Hrow).
Qed.

Lemma attempts_sound_keys w w' :
  attempts_sound w → attempts w' = attempts w →
  (∀ k, is_Some (notifications w !! k) → is_Some (notifications w' !! k)) →
  attempts_sound w'.
Proof.
  unfold attempts_sound. intros H Ha Hk. rewrite Ha.
  eapply Forall_impl; [exact H|]. intros a [H1 H2]. split; [apply Hk; exact H1 | exact H2].
Qed.

Lemma attempts_sound_snoc w w' a :
  attempts_sound w → notifications w' = notifications w →
  attempts w' = attempts w ++ [a] →
  is_Some (notifications w !! notification_id a) →
  (success a = false ↔ is_Some (error_message a)) →
  attempts_sound w'.
Proof.
  unfold attempts_sound. intros H Hn Ha H1 H2. rewrite Ha, Hn.
  apply Forall_app. split; [exact H|].
  constructor; [split; assumption | constructor].
Qed.

Lemma effect_attempts_sound w w' : attempts_sound w → effect w w' → attempts_sound w'.
Proof.
  intros Hs He. destruct He as [new_id data w Hfresh|p n c msg w Hrow Hns|p n c w Hrow Hns
                                |n s w Hrow Hns Hst| | |]; try exact Hs.
  - eapply attempts_sound_keys; [exact Hs | reflexivity|].
    intros k Hk. simpl. apply is_Some_insert_keep. exact Hk.
  - eapply attempts_sound_snoc; [exact Hs | reflexivity | reflexivity | |].
    + simpl. rewrite Hrow. eauto.
    + simpl. split; [eauto | done].
  - eapply attempts_sound_keys; [| apply commit_to_rest | intros k; apply commit_to_keys].
    eapply attempts_sound_snoc; [exact Hs | reflexivity | reflexivity | |].
    + simpl. rewrite Hrow. eauto.
    + simpl. split; [done | intros [? ?]; done].
  - eapply attempts_sound_keys; [exact Hs | apply commit_to_rest | intros k; apply commit_to_keys].
Qed.

Lemma queue_sound_keys w w' :
  queue_sound w → stream w' = stream w →
  (∀ k, is_Some (notifications w !! k) → is_Some (notifications w' !! k)) →
  queue_sound w'.
Proof.
  unfold queue_sound. intros H Hs Hk. rewrite Hs.
  eapply Forall_impl; [exact H|]. intros p [H1 H2]. split; [apply Hk; exact H1 | exact H2].
Qed.

Lemma effect_queue_sound w w' : queue_sound w → effect w w' → queue_sound w'.
Proof.
  intros Hq He. destruct He as [new_id data w Hfresh|p n c msg w Hrow Hns|p n c w Hrow Hns
                                |n s w Hrow Hns Hst|payload w Hw| |]; try exact Hq.
  - eapply queue_sound_keys; [exact Hq | reflexivity|].
    intros k Hk. simpl. apply is_Some_insert_keep. exact Hk.
  - apply (queue_sound_keys (after_success p n c w));
      [exact Hq | apply commit_to_rest | intros k; apply commit_to_keys].
  - eapply queue_sound_keys; [exact Hq | apply commit_to_rest | intros k; apply commit_to_keys].
  - unfold queue_sound. simpl. apply Forall_app. split; [exact Hq|].
    constructor; [|constructor]. split; [apply Hw|].
    destruct Hw as [_ [channels ->]]. simpl. rewrite decode_written. eauto.
Qed.

(** ** A sent notification is final; the logs only grow *)

Lemma attempts_of_snoc_other k w w' a :
  attempts w' = attempts w ++ [a] → notification_id a ≠ k →
  attempts_of k w' = attempts_of k w.
Proof.
  intros Ha Hne. unfold attempts_of. rewrite Ha, filter_app.
  rewrite filter_cons_False by exact Hne. rewrite filter_nil. apply app_nil_r.
Qed.

Lemma attempts_of_same k w w' :
  attempts w' = attempts w → attempts_of k w' = attempts_of k w.
Proof. unfold attempts_of. intros ->. reflexivity. Qed.

Lemma effect_kept_sent k w0 w w' :
  kept_sent k w0 w → effect w w' → kept_sent k w0 w'.
Proof.
  intros Hk He n Hn Hs. destruct (Hk n Hn Hs) as [Hrow Hatt]. rewrite <- Hatt.
  destruct He as [new_id data w Hfresh|p m c msg w Hm Hns|p m c w Hm Hns
                  |m s w Hm Hns Hst| | |]; try (split; [exact Hrow | reflexivity]).
  - split; [|reflexivity]. simpl. rewrite lookup_insert_ne; [exact Hrow|].
    intros ->. rewrite Hfresh in Hrow. discriminate Hrow.
  - assert (Hne : id m ≠ k) by (intros <-; rewrite Hm in Hrow; congruence).
    split; [exact Hrow|]. eapply attempts_of_snoc_other; [reflexivity | exact Hne].
  - assert (Hne : id m ≠ k) by (intros <-; rewrite Hm in Hrow; congruence).
    split.
    + rewrite commit_to_lookup_ne; [exact Hrow | simpl; congruence].
    + rewrite (attempts_of_same k (after_success p m c w)) by apply commit_to_rest.
      eapply attempts_of_snoc_other; [reflexivity | exact Hne].
  - assert (Hne : id m ≠ k) by (intros <-; rewrite Hm in Hrow; congruence).
    split.
    + rewrite commit_to_lookup_ne; [exact Hrow | simpl; congruence].
    + apply attempts_of_same. apply commit_to_rest.
Qed.

Lemma append_only_refl w : append_only w w.
Proof. repeat split; reflexivity. Qed.

Lemma append_only_grow w0 w w' s a c :
  append_only w0 w →
  stream w' = stream w ++ s → attempts w' = attempts w ++ a → calls w' = calls w ++ c →
  append_only w0 w'.
Proof.
  intros (H1 & H2 & H3) Hs Ha Hc. unfold append_only. rewrite Hs, Ha, Hc.
  repeat split; (etrans; [eassumption | apply prefix_app_r; reflexivity]).
Qed.

Lemma effect_append_only w0 w w' :
  append_only w0 w → effect w w' → append_only w0 w'.
Proof.
  intros H He.
  destruct He as [new_id data w Hfresh|p m c msg w Hm Hns|p m c w Hm Hns
                  |m s w Hm Hns Hst|payload w Hw| |]; try exact H.
  - apply (append_only_grow w0 w _ [] [mkAttempt (id m) (channel_value c) (S (now w)) false (Some msg)]
             [(channel_name p, recipient m, message m)] H);
      [symmetry; apply app_nil_r | reflexivity | reflexivity].
  - destruct (commit_to_rest m (sent_via c m) (after_success p m c w))
      as (Ha & Hs & _ & _ & Hc & _).
    apply (append_only_grow w0 w _ [] [mkAttempt (id m) (channel_value c) (S (now w)) true None]
             [(channel_name p, recipient m, message m)] H).
    + rewrite Hs. symmetry. apply app_nil_r.
    + rewrite Ha. reflexivity.
    + rewrite Hc. reflexivity.
  - destruct (commit_to_rest m (with_status s m) w) as (Ha & Hs & _ & _ & Hc & _).
    apply (append_only_grow w0 w _ [] [] [] H); rewrite ?Ha, ?Hs, ?Hc; symmetry; apply app_nil_r.
  - apply (append_only_grow w0 w _ [payload] [] [] H);
      [reflexivity | symmetry; apply app_nil_r | symmetry; apply app_nil_r].
Qed.

(** X7.  Once a notification is [sent], no sequence of operations of the
    service changes its row or adds an attempt for it. *)
Theorem sent_is_final k w w' :
  well_keyed w → rtc step w w' → kept_sent k w w'.
Proof.
  intros Hkey Hsteps.
  apply (effects_keep (kept_sent k w) (effect_kept_sent k w) w w').
  - intros n Hn _. split; [exact Hn | reflexivity].
  - apply steps_effects; assumption.
Qed.

(** X8.  No sequence of operations of the service removes or rewrites a
    retry record, an attempt row or a provider call: the stream, the
    attempts and the calls before are prefixes of those after. *)
Theorem logs_only_grow w w' :
  well_keyed w → rtc step w w' → append_only w w'.
Proof.
  intros Hkey Hsteps.
  apply (effects_keep (append_only w) (effect_append_only w) w w').
  - apply append_only_refl.
  - apply steps_effects; assumption.
Qed.

(** X9.  In every world the service reaches, each attempt row belongs to
    a stored notification and carries an error message exactly when it
    records a failure. *)
Theorem reachable_attempts_sound w : reachable w → attempts_sound w.
Proof.
  intros H. apply (effects_keep attempts_sound effect_attempts_sound empty_world w).
  - constructor.
  - apply reachable_effects. exact H.
Qed.

(** X10.  In every world the service reaches, each record of the retry
    stream names a stored notification and carries channel tags the
    worker decodes. *)
Theorem reachable_queue_sound w : reachable w → queue_sound w.
Proof.
  intros H. apply (effects_keep queue_sound effect_queue_sound empty_world w).
  - constructor.
  - apply reachable_effects. exact H.
Qed.

Lemma reachable_well_typed w : reachable w → well_typed w.
Proof.
  intros H. apply (effects_keep well_typed effect_well_typed empty_world w).
  - split; [|constructor]. intros k n Hk. simpl in Hk. rewrite lookup_empty in Hk.
    discriminate Hk.
  - apply reachable_effects. exact H.
Qed.

(** ** The GET route *)

Lemma status_reads_back s : NotificationStatus_of_value (status_value s) = Some s.
Proof. destruct s; reflexivity. Qed.

Lemma AttemptInfo_of_tag a :
  channel_tag (channel a) →
  ∃ c, channel a = channel_value c
       ∧ AttemptInfo_of a
         = Some (responses.mkInfo c (timestamp a) (success a) (error_message a)).
Proof.
  intros [c Hc]. exists c. split; [exact Hc|]. unfold AttemptInfo_of. rewrite Hc.
  rewrite channel_reads_back. reflexivity.
Qed.

Lemma infos_of_typed (l : list NotificationAttempt) :
  Forall (λ a, channel_tag (channel a)) l →
  ∃ infos, mapM AttemptInfo_of l = Some infos
           ∧ shown <$> infos = (λ a, (channel a, success a, error_message a)) <$> l.
Proof.
  induction l as [|a l IH]; intros H.
  - exists []. split; reflexivity.
  - apply Forall_cons in H as [Ha Hl]. destruct (IH Hl) as (infos & Hm & Hs).
    destruct (AttemptInfo_of_tag a Ha) as (c & Hc & Hi).
    eexists (_ :: infos). split.
    + cbn [mapM]. rewrite Hi. simpl. rewrite Hm. reflexivity.
    + rewrite !fmap_cons, Hs. unfold shown at 1. simpl. rewrite Hc. reflexivity.
Qed.

Lemma response_of_typed w k n :
  well_typed w → notifications w !! k = Some n →
  ∃ resp,
    NotificationResponse_of n (attempts_of k w) = Some resp
    ∧ responses.id resp = id n
    ∧ responses.recipient resp = recipient n
    ∧ responses.message resp = message n
    ∧ status_value (responses.status resp) = status n
    ∧ channel_value <$> responses.channel_used resp = channel_used n
    ∧ shown <$> responses.attempts resp
      = (λ a, (channel a, success a, error_message a)) <$> attempts_of k w.
Proof.
  intros [Hrows Hatt] Hk. destruct (Hrows k n Hk) as [[s Hs] Hused].
  assert (Hl : Forall (λ a, channel_tag (channel a)) (attempts_of k w)).
  { apply Forall_forall. intros a Ha. unfold attempts_of in Ha.
    apply list_elem_of_filter in Ha as [_ Ha].
    rewrite Forall_forall in Hatt. apply Hatt. exact Ha. }
  destruct (infos_of_typed _ Hl) as (infos & Hm & Hshown).
  unfold NotificationResponse_of. rewrite Hm, Hs, status_reads_back. simpl.
  destruct (channel_used n) as [tag|] eqn:Hc.
  - destruct (Hused tag eq_refl) as [c ->].
    rewrite channel_reads_back. simpl.
    eexists. split; [reflexivity|]. simpl. repeat split; try done.
  - simpl. eexists. split; [reflexivity|]. simpl. repeat split; try done.
Qed.

(** X11.  In every world the service reaches, the GET route answers 404
    for an identifier that is not stored and 200 for one that is, never
    500: the stored status, [channel_used] and attempt channels always
    validate into the response model, which shows the row and its
    attempts as stored. *)
Theorem get_route_answers w k :
  reachable w →
  match notifications w !! k with
  | None => get_notification_route k w = (404, None)
  | Some n =>
      ∃ resp,
        get_notification_route k w = (200, Some resp)
        ∧ responses.id resp = id n
        ∧ responses.recipient resp = recipient n
        ∧ responses.message resp = message n
        ∧ status_value (responses.status resp) = status n
        ∧ channel_value <$> responses.channel_used resp = channel_used n
        ∧ shown <$> responses.attempts resp
          = (λ a, (channel a, success a, error_message a)) <$> attempts_of k w
  end.
Proof.
  intros Hreach. unfold get_notification_route, get_notification. unfold_M.
  destruct (notifications w !! k) as [n|] eqn:Hk; [|reflexivity].
  destruct (response_of_typed w k n (reachable_well_typed w Hreach) Hk)
    as (resp & Hresp & Hfields).
  exists resp. rewrite Hresp. split; [reflexivity | exact Hfields].
Qed.

(** ** What a create-and-send request returns *)

Lemma cascade_outcome self n channels : ∀ w,
  match cascade self n channels w with
  | (Ok None, w') => notifications w' = notifications w
  | (Ok (Some sent), w') =>
      ∃ c p w1,
        c ∈ channels ∧ notifications w1 = notifications w
        ∧ sent = committed n (sent_via c n) (S (now w1))
        ∧ w' = commit_to n (sent_via c n) (after_success p n c w1)
  | (Raise _, _) => False
  end.
Proof.
  induction channels as [|c rest IH]; intros w; [reflexivity|].
  destruct (providers self !! c) as [p|] eqn:Hp.
  - destruct (send p (recipient n) (message n) (now w)) as [msg|] eqn:Hs.
    + rewrite (cascade_failure _ _ _ _ _ _ _ Hp Hs).
      specialize (IH (after_failure p n c msg w)).
      destruct (cascade self n rest (after_failure p n c msg w)) as [[[sent|]|e] w'];
        [|exact IH|exact IH].
      destruct IH as (d & q & w1 & Hd & Hn & Hsent & Hw).
      exists d, q, w1. split; [right; exact Hd|]. done.
    + rewrite (cascade_success _ _ _ _ _ _ Hp Hs).
      exists c, p, w. split; [left|]. done.
  - rewrite (cascade_skip _ _ _ _ _ Hp). specialize (IH w).
    destruct (cascade self n rest w) as [[[sent|]|e] w']; [|exact IH|exact IH].
    destruct IH as (d & q & w1 & Hd & Hrest). exists d, q, w1.
    split; [right; exact Hd | exact Hrest].
Qed.

Lemma create_and_send_free self new_id data w :
  notifications w !! new_id = None →
  match create_and_send self new_id data w with
  | (Ok n, w') =>
      notifications w' !! new_id = Some n
      ∧ same_identity (new_row new_id data (now w)) n
      ∧ ((status n = status_value SENT
          ∧ (∃ c, c ∈ schemas.channels data
                  ∧ channel_used n = Some (channel_value c))
          ∧ stream w' = stream w)
         ∨ (status n = status_value FAILED
            ∧ channel_used n = None
            ∧ stream w' = stream w
                ++ [mkPayload new_id (channel_value <$> schemas.channels data) 1]))
  | (Raise e, w') =>
      e = RedisError
      ∧ stream w' = stream w
      ∧ ∃ n, notifications w' !! new_id = Some n ∧ status n = status_value FAILED
  end.
Proof.
  intros Hfresh. rewrite create_and_send_eq, Hfresh, attempt_delivery_eq.
  set (n := new_row new_id data (now w)).
  set (w0 := inserted new_id data w).
  assert (Hrow : notifications w0 !! id n = Some n) by (simpl; apply lookup_insert_eq).
  pose proof (cascade_outcome self n (schemas.channels data) w0) as Hc.
  pose proof (cascade_queue self n (schemas.channels data) w0) as (Hst & _).
  destruct (cascade self n (schemas.channels data) w0) as [[[sent|]|e] w1]; [| |done].
  + destruct Hc as (c & p & w2 & Hin & Hn2 & -> & ->). simpl in Hst.
    split; [|split].
    * apply (commit_to_lookup n (sent_via c n) (after_success p n c w2)); [|reflexivity].
      simpl. rewrite Hn2. exact Hrow.
    * destruct (committed_fields n (sent_via c n) (S (now w2))) as (?&?&?&?&?&?&?).
      repeat split; simpl in *; congruence.
    * left. rewrite committed_status, committed_channel_used.
      split; [reflexivity|]. split; [exists c; done | exact Hst].
  + simpl in Hst. cbv zeta.
    destruct (commit_to_rest n (marked_failed n) w1) as (_ & Hs1 & _).
    assert (Hlook : notifications (commit_to n (marked_failed n) w1) !! new_id
                    = Some (committed n (marked_failed n) (now w1))).
    { apply (commit_to_lookup n (marked_failed n) w1); [|reflexivity].
      rewrite Hc. exact Hrow. }
    unfold xadd. destruct (answers (redis self) _); simpl.
    * split; [exact Hlook|]. split.
      -- destruct (committed_fields n (marked_failed n) (now w1)) as (?&?&?&?&?&?&?).
         repeat split; simpl in *; congruence.
      -- right. rewrite committed_status, committed_channel_used, committed_id.
         split; [reflexivity|]. split; [reflexivity|].
         simpl. rewrite Hs1, Hst. reflexivity.
    * split; [reflexivity|]. split; [rewrite Hs1; exact Hst|].
      eexists. split; [exact Hlook|]. rewrite committed_status. reflexivity.
Qed.

Lemma create_and_send_taken self new_id data w :
  is_Some (notifications w !! new_id) →
  create_and_send self new_id data w = (Raise IntegrityError, w).
Proof. intros [m Hm]. rewrite create_and_send_eq, Hm. reflexivity. Qed.

(** X3.  A create-and-send request whose identifier is taken raises and
    changes nothing.  With a free identifier, when it returns, the
    notification returned is the stored row, with the identifier,
    recipient, message and metadata of the request, and it is either
    [sent] on one of the requested channels with nothing enqueued, or
    [failed] without [channel_used] with one retry record of attempt 1
    appended; it is never left [pending].  When it raises, the error is
    the queue's, the row is stored [failed] and the queue is as before. *)
Theorem create_and_send_outcome self new_id data w :
  (is_Some (notifications w !! new_id) →
     create_and_send self new_id data w = (Raise IntegrityError, w))
  ∧ (notifications w !! new_id = None →
     match create_and_send self new_id data w with
     | (Ok n, w') =>
         notifications w' !! new_id = Some n
         ∧ same_identity (new_row new_id data (now w)) n
         ∧ ((status n = status_value SENT
             ∧ (∃ c, c ∈ schemas.channels data
                     ∧ channel_used n = Some (channel_value c))
             ∧ stream w' = stream w)
            ∨ (status n = status_value FAILED
               ∧ channel_used n = None
               ∧ stream w' = stream w
                   ++ [mkPayload new_id (channel_value <$> schemas.channels data) 1]))
     | (Raise e, w') =>
         e = RedisError
         ∧ stream w' = stream w
         ∧ ∃ n, notifications w' !! new_id = Some n ∧ status n = status_value FAILED
     end).
Proof.
  split.
  - apply create_and_send_taken.
  - apply create_and_send_free.
Qed.

(** X12.  Create then GET: when the create-and-send request of a POST
    returns a notification, from a world the service reached, the POST
    route answers 500, its handler reading the attempts the session never
    loaded, and the row is stored all the same: the GET route on its
    identifier answers 200 with the response model of that notification
    and of its attempt rows. *)
Theorem create_then_get st net r new_id body data w n w' :
  reachable w →
  validate body = Some data →
  create_and_send (NotificationService_init st net r) new_id data w = (Ok n, w') →
  create_notification st net r new_id body w = (mkResponse 500 None, w')
  ∧ id n = new_id
  ∧ ∃ resp,
      NotificationResponse_of n (attempts_of new_id w') = Some resp
      ∧ get_notification_route new_id w' = (200, Some resp).
Proof.
  intros Hreach Hval Hrun.
  split; [rewrite create_notification_eq, Hval, Hrun; reflexivity|].
  destruct (notifications w !! new_id) as [m|] eqn:Hfresh.
  { rewrite (create_and_send_taken _ new_id data w) in Hrun
      by (rewrite Hfresh; eauto). discriminate Hrun. }
  pose proof (create_and_send_free (NotificationService_init st net r)
                new_id data w Hfresh) as Hout.
  assert (Hreach' : reachable
            (create_and_send (NotificationService_init st net r) new_id data w).2)
    by (eapply rtc_r; [exact Hreach | apply step_create_and_send]).
  rewrite Hrun in Hout, Hreach'. simpl in Hreach'.
  destruct Hout as (Hrow & (Hid & _) & _). simpl in Hid.
  split; [exact Hid|].
  destruct (response_of_typed w' new_id n (reachable_well_typed w' Hreach') Hrow)
    as (resp & Hresp & _).
  exists resp. split; [exact Hresp|].
  unfold get_notification_route, get_notification. unfold_M.
  rewrite Hrow, Hresp. reflexivity.
Qed.

(** ** The service as [__init__] builds it *)

Lemma init_providers st net r c :
  providers (NotificationService_init st net r) !! c = Some (provider_of st net c).
Proof. destruct c; reflexivity. Qed.

Lemma provider_of_name st net c : channel_name (provider_of st net c) = channel_value c.
Proof. destruct c; reflexivity. Qed.

Lemma provider_of_mock st net c r m t :
  configured st c = false → send (provider_of st net c) r m t = None.
Proof. destruct c; simpl; intros ->; reflexivity. Qed.

(** X4.  Mock mode: when the provider of the first requested channel has
    no credentials configured, a create-and-send request with a free
    identifier returns the notification [sent] on that channel, whatever
    the network and the queue do: one provider call, one success attempt,
    nothing enqueued, no later channel tried. *)
Theorem mock_mode_sends_first st net r new_id data c rest w :
  configured st c = false →
  notifications w !! new_id = None →
  schemas.channels data = c :: rest →
  ∃ n w',
    create_and_send (NotificationService_init st net r) new_id data w = (Ok n, w')
    ∧ status n = status_value SENT
    ∧ channel_used n = Some (channel_value c)
    ∧ notifications w' !! new_id = Some n
    ∧ attempts w' = attempts w ++ [mkAttempt new_id (channel_value c) (S (now w)) true None]
    ∧ calls w' = calls w ++ [(channel_value c, schemas.recipient data, schemas.message data)]
    ∧ stream w' = stream w.
Proof.
  intros Hmock Hfresh Hch.
  rewrite create_and_send_eq, Hfresh, attempt_delivery_eq, Hch.
  set (n := new_row new_id data (now w)).
  set (w0 := inserted new_id data w).
  rewrite (cascade_success _ n c rest w0 (provider_of st net c)
             (init_providers st net r c) (provider_of_mock st net c _ _ _ Hmock)).
  eexists _, _. split; [reflexivity|].
  destruct (commit_to_rest n (sent_via c n) (after_success (provider_of st net c) n c w0))
    as (Ha & Hs & _ & _ & Hc & _).
  rewrite committed_status, committed_channel_used, Ha, Hs, Hc.
  repeat split.
  - apply (commit_to_lookup n (sent_via c n) (after_success (provider_of st net c) n c w0));
      [|reflexivity]. simpl. apply lookup_insert_eq.
  - simpl. rewrite provider_of_name. reflexivity.
Qed.

Lemma init_invoked st net r n call c :
  invoked (NotificationService_init st net r) n call c →
  call = (channel_value c, recipient n, message n).
Proof.
  intros (p & Hp & ->). rewrite init_providers in Hp. injection Hp as <-.
  rewrite provider_of_name. reflexivity.
Qed.

Lemma init_tried st net r n tried_channels flags w w' :
  tried (NotificationService_init st net r) n tried_channels flags w w' →
  ∃ new,
    attempts w' = attempts w ++ new
    ∧ channel <$> new = channel_value <$> tried_channels
    ∧ calls w' = calls w ++ ((λ a, (channel a, recipient n, message n)) <$> new).
Proof.
  intros (new & new_calls & H1 & H2 & _ & _ & H5 & H6).
  exists new. split; [exact H1|]. split; [exact H2|]. rewrite H5. f_equal.
  assert (Hc : new_calls = (λ c, (channel_value c, recipient n, message n)) <$> tried_channels).
  { clear -H6. induction H6 as [|call c calls0 cs Hi _ IH]; [reflexivity|].
    rewrite fmap_cons, <- IH. f_equal. eapply init_invoked. exact Hi. }
  rewrite Hc.
  change (λ a, (channel a, recipient n, message n))
    with ((λ s : string, (s, recipient n, message n)) ∘ channel).
  change (λ c, (channel_value c, recipient n, message n))
    with ((λ s : string, (s, recipient n, message n)) ∘ channel_value).
  rewrite !list_fmap_compose, H2. reflexivity.
Qed.

(** X5.  For the service as [__init__] builds it, whatever the providers
    answer, the attempts a delivery round appends are on a prefix of the
    channel list, in list order, and the provider calls of the round are
    those attempts' channels, one call per attempt. *)
Theorem init_round_prefix st net r n channels w :
  ∃ new,
    attempts (_attempt_delivery (NotificationService_init st net r) n channels w).2
      = attempts w ++ new
    ∧ (channel <$> new) `prefix_of` (channel_value <$> channels)
    ∧ calls (_attempt_delivery (NotificationService_init st net r) n channels w).2
      = calls w ++ ((λ a, (channel a, recipient n, message n)) <$> new).
Proof.
  set (self := NotificationService_init st net r).
  assert (Hreg : Forall (λ c, is_Some (providers self !! c)) channels).
  { apply Forall_forall. intros c _. unfold self. rewrite init_providers. eauto. }
  rewrite attempt_delivery_eq.
  destruct (outcomes_dichotomy self n channels (now w) Hreg)
    as [Hall|(pre & c & post & -> & Hpre & Hok)].
  - destruct (cascade_all_fail self n channels w Hall) as (w' & -> & Htr & _).
    destruct (init_tried st net r n _ _ _ _ Htr) as (new & H1 & H2 & H3).
    exists new. cbv zeta.
    destruct (commit_to_rest n (marked_failed n) w') as (Ha & _ & _ & _ & Hc & _).
    assert (Hx : attempts (xadd (redis self)
                   (mkPayload (id (committed n (marked_failed n) (now w')))
                      (channel_value <$> channels) 1)
                   (commit_to n (marked_failed n) w')).2 = attempts w'
                 ∧ calls (xadd (redis self)
                   (mkPayload (id (committed n (marked_failed n) (now w')))
                      (channel_value <$> channels) 1)
                   (commit_to n (marked_failed n) w')).2 = calls w').
    { unfold xadd. destruct (answers _ _); simpl; rewrite Ha, Hc; done. }
    destruct (xadd _ _ _) as [[[]|e] w'']; simpl in *; destruct Hx as [-> ->];
      (split; [exact H1|]; split; [rewrite H2; reflexivity | exact H3]).
  - destruct (cascade_first_success self n pre c post w Hpre Hok)
      as (p & w1 & Hp & Htr & _ & _ & ->).
    assert (Htr' : tried self n (pre ++ [c]) (replicate (length pre) false ++ [true]) w
                     (commit_to n (sent_via c n) (after_success p n c w1))).
    { destruct (commit_to_rest n (sent_via c n) (after_success p n c w1))
        as (Ha & _ & _ & _ & Hc & _).
      eapply tried_snoc; [exact Htr | rewrite Ha; reflexivity | rewrite Hc; reflexivity
                         | reflexivity | reflexivity | reflexivity | | exists p; done].
      simpl. split; [done | intros [? ?]; done]. }
    destruct (init_tried st net r n _ _ _ _ Htr') as (new & H1 & H2 & H3).
    exists new. simpl. split; [exact H1|]. split; [|exact H3].
    rewrite H2, !fmap_app. apply prefix_app. simpl. apply prefix_cons, prefix_nil.
Qed.

(** ** A retry round *)

Lemma succeeds_at_same_body self n n' c t :
  recipient n' = recipient n → message n' = message n →
  succeeds_at self n' c t = succeeds_at self n c t.
Proof. intros Hr Hm. unfold succeeds_at. rewrite Hr, Hm. reflexivity. Qed.

Lemma succeeding_retry st self nid channels attempt w n pre c post :
  notifications w !! nid = Some n → id n = nid →
  status n ≠ status_value SENT →
  channels = pre ++ c :: post →
  all_fail self n pre (now w) = true →
  succeeds_at self n c (length pre + now w) = true →
  ∃ sent w',
    retry_notification st self nid channels attempt w = (Ok tt, w')
    ∧ notifications w' !! nid = Some sent
    ∧ status sent = status_value SENT
    ∧ channel_used sent = Some (channel_value c)
    ∧ stream w' = stream w.
Proof.
  intros Hn Hid Hns -> Hpre Hok.
  unfold retry_notification, get_notification. unfold_M. rewrite Hn.
  apply String.eqb_neq in Hns. rewrite Hns. rewrite db_commit_eq.
  set (again := with_status (status_value PENDING) n).
  set (n1 := committed n again (now w)).
  set (w1 := commit_to n again w).
  destruct (commit_to_rest n again w) as (_ & Hs1 & _ & _ & _ & Hnow1).
  fold w1 in Hs1, Hnow1.
  destruct (committed_fields n again (now w)) as (Hid1 & Hr1 & Hm1 & _).
  fold n1 in Hid1, Hr1, Hm1. simpl in Hid1, Hr1, Hm1.
  assert (Hrow1 : notifications w1 !! id n1 = Some n1).
  { rewrite Hid1. apply (commit_to_lookup n again w); [|reflexivity].
    rewrite Hid. exact Hn. }
  assert (Hpre1 : all_fail self n1 pre (now w1) = true)
    by (rewrite Hnow1, (all_fail_same_body self n n1); done).
  assert (Hok1 : succeeds_at self n1 c (length pre + now w1) = true)
    by (rewrite Hnow1, (succeeds_at_same_body self n n1); done).
  destruct (cascade_first_success self n1 pre c post w1 Hpre1 Hok1)
    as (p & w2 & Hp & _ & Hn2 & Hs2 & Heq).
  rewrite attempt_delivery_eq, Heq. rewrite committed_status. simpl.
  destruct (commit_to_rest n1 (sent_via c n1) (after_success p n1 c w2))
    as (_ & Hs3 & _).
  eexists _, _. split; [reflexivity|]. split; [|split; [|split]].
  - rewrite <- Hid, <- Hid1.
    apply (commit_to_lookup n1 (sent_via c n1) (after_success p n1 c w2)); [|reflexivity].
    simpl. rewrite Hn2. exact Hrow1.
  - rewrite committed_status. reflexivity.
  - rewrite committed_channel_used. reflexivity.
  - rewrite Hs3. simpl. rewrite Hs2. exact Hs1.
Qed.

(** X6.  A retry round on a stored notification that is not [sent].
    When a channel succeeds after those before it failed, the
    notification becomes [sent] on that channel and nothing is enqueued.
    When every channel fails, the queue answering, the round appends a
    retry record of attempt 1 and, if the attempt processed is below
    [max_retry_attempts], a record of the next attempt after it. *)
Theorem retry_round_outcome st self nid channels attempt w n :
  notifications w !! nid = Some n → id n = nid →
  status n ≠ status_value SENT →
  (∀ pre c post,
      channels = pre ++ c :: post →
      all_fail self n pre (now w) = true →
      succeeds_at self n c (length pre + now w) = true →
      ∃ sent w',
        retry_notification st self nid channels attempt w = (Ok tt, w')
        ∧ notifications w' !! nid = Some sent
        ∧ status sent = status_value SENT
        ∧ channel_used sent = Some (channel_value c)
        ∧ stream w' = stream w)
  ∧ (all_fail self n channels (now w) = true →
     answers (redis self) (length channels + now w) = true →
     answers (redis self) (S (length channels + now w)) = true →
     stream (retry_notification st self nid channels attempt w).2
     = stream w ++ mkPayload nid (channel_value <$> channels) 1
         :: (if (attempt <? max_retry_attempts st)%Z
             then [mkPayload nid (channel_value <$> channels) (attempt + 1)]
             else [])).
Proof.
  intros Hn Hid Hns. split.
  - intros pre c post. apply succeeding_retry; assumption.
  - apply failing_retry_enqueues; assumption.
Qed.

(** ** The worker *)

Lemma process_group st net r mid data w :
  delivered (process_retry_message st net r mid data w).2 = delivered w
  ∧ (pending (process_retry_message st net r mid data w).2 = pending w
     ∨ pending (process_retry_message st net r mid data w).2
       = filter (λ i, i ≠ mid) (pending w)).
Proof.
  rewrite process_eq. unfold slept.
  destruct (mapM DeliveryChannel_of_value (payload_channels data));
    [destruct (retry_backoff st (payload_attempt data))|];
    (split; [|left]; reflexivity).
Qed.

(** X14.  Processing a retry message never raises.  A message whose
    channel tags do not decode, or whose backoff overflows, leaves the
    world as it was.  The message is acknowledged only when the retry
    round returned and the queue answered the acknowledgement; in every
    other case the pending entries are left as they were. *)
Theorem process_acks_after_return st net r mid data w :
  (process_retry_message st net r mid data w).1 = Ok tt
  ∧ delivered (process_retry_message st net r mid data w).2 = delivered w
  ∧ (mapM DeliveryChannel_of_value (payload_channels data) = None
     ∨ retry_backoff st (payload_attempt data) = None →
     process_retry_message st net r mid data w = (Ok tt, w))
  ∧ (pending (process_retry_message st net r mid data w).2 = pending w
     ∨ ∃ channels delay w1,
         mapM DeliveryChannel_of_value (payload_channels data) = Some channels
         ∧ retry_backoff st (payload_attempt data) = Some delay
         ∧ retry_notification st (NotificationService_init st net r)
             (payload_notification_id data) channels (payload_attempt data)
             (tick (1 + delay) w) = (Ok tt, w1)
         ∧ answers r (now w1) = true
         ∧ pending (process_retry_message st net r mid data w).2
           = filter (λ i, i ≠ mid) (pending w)).
Proof.
  destruct (process_group st net r mid data w) as [Hd _].
  split; [rewrite process_eq; reflexivity|]. split; [exact Hd|]. split.
  - intros Hbad. rewrite process_eq. unfold slept.
    destruct Hbad as [-> | ->]; [reflexivity|].
    destruct (mapM DeliveryChannel_of_value (payload_channels data)); reflexivity.
  - left. rewrite process_eq. unfold slept.
    destruct (mapM DeliveryChannel_of_value (payload_channels data));
      [destruct (retry_backoff st (payload_attempt data))|]; reflexivity.
Qed.

Lemma worker_turn_pending st net r w :
  pending_below w →
  pending_below (retry_worker_turn st net r w).2
  ∧ (delivered w ≤ delivered (retry_worker_turn st net r w).2)%nat
  ∧ ∀ i, i ∈ pending w → i ∈ pending (retry_worker_turn st net r w).2.
Proof.
  intros Hbelow. unfold retry_worker_turn, xreadgroup. unfold_M.
  destruct (answers r (now w)); [|simpl; done].
  destruct (stream w !! delivered w) as [entry|]; [|simpl; done].
  set (w1 := tick 1 (set_group (S (delivered w)) (pending w ++ [delivered w]) w)).
  destruct (process_group st net r (delivered w) entry w1) as (Hd & Hp).
  assert (Hgoal : pending_below (process_retry_message st net r (delivered w) entry w1).2
    ∧ (delivered w ≤ delivered (process_retry_message st net r (delivered w) entry w1).2)%nat
    ∧ ∀ i, i ∈ pending w →
           i ∈ pending (process_retry_message st net r (delivered w) entry w1).2).
  { unfold pending_below in *. rewrite Hd. simpl.
    assert (Hall : Forall (λ i, i < S (delivered w)) (pending w ++ [delivered w])).
    { apply Forall_app. split.
      - eapply Forall_impl; [exact Hbelow|]. simpl. lia.
      - constructor; [lia | constructor]. }
    destruct Hp as [-> | ->]; simpl.
    - split; [exact Hall|]. split; [lia|]. intros i Hi. apply elem_of_app. left. exact Hi.
    - split; [|split; [lia|]].
      + apply Forall_forall. intros i Hi. apply list_elem_of_filter in Hi as [_ Hi].
        rewrite Forall_forall in Hall. apply Hall. exact Hi.
      + intros i Hi. apply list_elem_of_filter. split.
        * rewrite Forall_forall in Hbelow. specialize (Hbelow i Hi). lia.
        * apply elem_of_app. left. exact Hi. }
  destruct (process_retry_message st net r (delivered w) entry w1) as [[[]|e] w2];
    simpl in *; exact Hgoal.
Qed.

(** X15.  A message the worker left unacknowledged is never taken up
    again: over any number of turns of the worker loop the cursor of the
    consumer group only advances, and every entry that was pending before
    is still pending after. *)
Theorem unacked_stays_pending st net shutdown r fuel : ∀ w,
  pending_below w →
  pending_below (retry_worker_loop st net shutdown r fuel w).2
  ∧ (delivered w ≤ delivered (retry_worker_loop st net shutdown r fuel w).2)%nat
  ∧ ∀ i, i ∈ pending w → i ∈ pending (retry_worker_loop st net shutdown r fuel w).2.
Proof.
  induction fuel as [|fuel IH]; intros w Hbelow; [simpl; done|].
  simpl. destruct (shutdown (now w)); [simpl; done|]. unfold_M.
  destruct (worker_turn_pending st net r w Hbelow) as (Hb1 & Hd1 & Hp1).
  destruct (retry_worker_turn st net r w) as [[[]|e] w1]; simpl in *; [|done].
  destruct (IH w1 Hb1) as (Hb2 & Hd2 & Hp2).
  split; [exact Hb2|]. split; [lia|]. intros i Hi. apply Hp2, Hp1, Hi.
Qed.

(** ** What validation lets through *)

Lemma validate_nonempty body data :
  validate body = Some data → schemas.channels data ≠ [].
Proof.
  unfold validate. destruct (_ && _); [|discriminate].
  destruct (body_channels body) as [tags|]; [|intros [= <-]; discriminate].
  destruct (mapM DeliveryChannel_of_value tags) as [[|c channels]|];
    [discriminate | | discriminate].
  destruct (1 <=? _)%Z; [|discriminate]. intros [= <-]. discriminate.
Qed.

(** X2.  A body that passes validation yields a request with the
    recipient and message of the body, a message of 1 to 10000
    characters and a channel list that is not empty: the three channels
    in their default order when the body names none, the decoded tags of
    the body otherwise. *)
Theorem validate_sound body data :
  validate body = Some data →
  schemas.recipient data = body_recipient body
  ∧ schemas.message data = body_message body
  ∧ (1 ≤ Z.of_nat (String.length (schemas.message data)) ≤ 10000)%Z
  ∧ schemas.channels data ≠ []
  ∧ schemas.metadata data = default [] (body_metadata body)
  ∧ match body_channels body with
    | None => schemas.channels data = [EMAIL; SMS; TELEGRAM]
    | Some tags => channel_value <$> schemas.channels data = tags
    end.
Proof.
  unfold validate.
  destruct ((1 <=? Z.of_nat (String.length (body_message body)))%Z
            && (Z.of_nat (String.length (body_message body)) <=? 10000)%Z) eqn:Hlen;
    [|discriminate].
  apply andb_prop in Hlen as [H1 H2]. apply Z.leb_le in H1, H2.
  destruct (body_channels body) as [tags|].
  - destruct (mapM DeliveryChannel_of_value tags) as [channels|] eqn:Hm; [|discriminate].
    destruct channels as [|c channels]; [discriminate|].
    replace (1 <=? Z.of_nat (length (c :: channels)))%Z with true
      by (symmetry; apply Z.leb_le; simpl length; lia).
    intros [= Hd]. subst data. simpl. repeat split; try done.
    apply (decoded_tags tags (c :: channels) Hm).
  - intros [= Hd]. subst data. simpl. repeat split; done.
Qed.

(** ** What a create-and-send request records *)

Lemma init_round_attempts st net r n c rest w :
  ∃ a new,
    attempts (_attempt_delivery (NotificationService_init st net r) n (c :: rest) w).2
      = attempts w ++ a :: new
    ∧ notification_id a = id n.
Proof.
  set (self := NotificationService_init st net r).
  assert (Hreg : Forall (λ d, is_Some (providers self !! d)) (c :: rest)).
  { apply Forall_forall. intros d _. unfold self. rewrite init_providers. eauto. }
  assert (Hnonempty : ∀ chs flags w1 w2,
            chs ≠ [] → tried self n chs flags w1 w2 →
            ∃ a new, attempts w2 = attempts w1 ++ a :: new ∧ notification_id a = id n).
  { intros chs flags w1 w2 Hne (new & new_calls & H1 & H2 & _ & H4 & _).
    destruct new as [|a new].
    - destruct chs as [|d chs]; [done|]. rewrite fmap_cons, fmap_nil in H2. discriminate H2.
    - exists a, new. split; [exact H1|]. apply Forall_cons in H4 as [[Hid _] _]. exact Hid. }
  rewrite attempt_delivery_eq.
  destruct (outcomes_dichotomy self n (c :: rest) (now w) Hreg)
    as [Hall|(pre & d & post & Heq & Hpre & Hok)].
  - destruct (cascade_all_fail self n (c :: rest) w Hall) as (w' & -> & Htr & _).
    destruct (Hnonempty (c :: rest) _ _ _ ltac:(discriminate) Htr) as (a & new & Ha & Hid).
    exists a, new. split; [|exact Hid]. cbv zeta.
    destruct (commit_to_rest n (marked_failed n) w') as (Hc & _).
    unfold xadd. destruct (answers _ _); simpl; rewrite Hc; exact Ha.
  - rewrite Heq.
    destruct (cascade_first_success self n pre d post w Hpre Hok)
      as (p & w1 & Hp & Htr & _ & _ & ->).
    destruct (commit_to_rest n (sent_via d n) (after_success p n d w1)) as (Ha & _).
    simpl. rewrite Ha. simpl.
    destruct Htr as (new & _ & H1 & _ & _ & H4 & _). rewrite H1, <- app_assoc.
    destruct new as [|a new].
    + eexists _, []. split; reflexivity.
    + apply Forall_cons in H4 as [[Hid _] _].
      eexists a, _. split; [reflexivity | exact Hid].
Qed.

(** X13.  What the create-and-send request of a POST records, for the
    service as [__init__] builds it: on a request that passed validation,
    with a free identifier, at least one attempt row of the notification
    is stored, whether the request returns or raises; and the
    notification it returns has the status [sent] or [failed], never
    [pending]. *)
Theorem create_records_an_attempt st net r new_id body data w :
  validate body = Some data →
  notifications w !! new_id = None →
  attempts_of new_id
    (create_and_send (NotificationService_init st net r) new_id data w).2 ≠ []
  ∧ ∀ n w',
      create_and_send (NotificationService_init st net r) new_id data w = (Ok n, w') →
      status n = status_value SENT ∨ status n = status_value FAILED.
Proof.
  intros Hval Hfresh.
  pose proof (validate_nonempty body data Hval) as Hne.
  split.
  - assert (Hatt : ∃ a new,
              attempts (create_and_send (NotificationService_init st net r)
                          new_id data w).2
                = attempts w ++ a :: new ∧ notification_id a = new_id).
    { rewrite create_and_send_eq, Hfresh.
      destruct (schemas.channels data) as [|c rest]; [done|].
      apply (init_round_attempts st net r (new_row new_id data (now w)) c rest
               (inserted new_id data w)). }
    destruct Hatt as (a & new & Ha & Hida).
    unfold attempts_of. rewrite Ha, filter_app, filter_cons_True by exact Hida.
    intros Hnil. apply app_eq_nil in Hnil as [_ Hnil]. discriminate Hnil.
  - intros n w' Hrun.
    pose proof (create_and_send_free (NotificationService_init st net r)
                  new_id data w Hfresh) as Hout.
    rewrite Hrun in Hout. destruct Hout as (_ & _ & [[? _]|[? _]]); tauto.
Qed.

(** ** A worker turn *)

Lemma untouched_refl w : untouched w w.
Proof. repeat split. Qed.

Lemma untouched_trans w1 w2 w3 : untouched w1 w2 → untouched w2 w3 → untouched w1 w3.
Proof.
  intros (H1 & H2 & H3 & H4) (H5 & H6 & H7 & H8).
  repeat split; congruence.
Qed.

Lemma worker_turn_eq st net r w :
  retry_worker_turn st net r w
  = (Ok tt,
     if answers r (now w)
     then match stream w !! delivered w with
          | Some entry =>
              slept st entry
                (tick 1 (set_group (S (delivered w)) (pending w ++ [delivered w]) w))
          | None => tick 1 w
          end
     else tick 1 (tick 1 w)).
Proof.
  unfold retry_worker_turn, xreadgroup. unfold_M.
  destruct (answers r (now w)); [|reflexivity].
  destruct (stream w !! delivered w) as [entry|]; [|reflexivity].
  rewrite process_eq. reflexivity.
Qed.

Lemma worker_turn_untouched st net r w : untouched w (retry_worker_turn st net r w).2.
Proof.
  rewrite worker_turn_eq. simpl.
  destruct (answers r (now w)); [|repeat split].
  destruct (stream w !! delivered w) as [entry|]; [|repeat split].
  eapply untouched_trans; [|apply slept_untouched]. repeat split.
Qed.

Lemma worker_loop_untouched st net shutdown r fuel : ∀ w,
  untouched w (retry_worker_loop st net shutdown r fuel w).2.
Proof.
  induction fuel as [|fuel IH]; intros w; [apply untouched_refl|].
  simpl. destruct (shutdown (now w)); [apply untouched_refl|]. unfold_M.
  pose proof (worker_turn_untouched st net r w) as Hturn.
  rewrite worker_turn_eq in *. simpl in *.
  eapply untouched_trans; [exact Hturn | apply IH].
Qed.

(** X16.  The worker runs no retry round.  [process_retry_message] hands
    [retry_notification] the [str] identifier of the payload, the lookup
    on the [Uuid] column raises and the handler swallows the error: a
    worker turn returns, invokes no provider, records no attempt, changes
    no notification and enqueues nothing, and so does any number of turns
    of the loop.  When the queue answers and the stream holds an entry
    the group has not read, the turn advances the cursor by one and
    leaves that entry pending, unacknowledged. *)
Theorem worker_runs_no_round st net r w :
  (retry_worker_turn st net r w).1 = Ok tt
  ∧ untouched w (retry_worker_turn st net r w).2
  ∧ (∀ shutdown fuel, untouched w (retry_worker_loop st net shutdown r fuel w).2)
  ∧ (∀ entry,
       answers r (now w) = true →
       stream w !! delivered w = Some entry →
       delivered (retry_worker_turn st net r w).2 = S (delivered w)
       ∧ pending (retry_worker_turn st net r w).2 = pending w ++ [delivered w]).
Proof.
  split; [rewrite worker_turn_eq; reflexivity|].
  split; [apply worker_turn_untouched|].
  split; [intros shutdown fuel; apply worker_loop_untouched|].
  intros entry Hup Hentry. rewrite worker_turn_eq, Hup, Hentry. simpl.
  unfold slept.
  destruct (mapM DeliveryChannel_of_value (payload_channels entry));
    [destruct (retry_backoff st (payload_attempt entry))|]; split; reflexivity.
Qed.

(** ** The further properties on the scenarios *)

Lemma after_mock_send_reachable : reachable after_mock_send.
Proof. apply rtc_once. apply step_create_and_send. Qed.

Lemma validate_sound_witness :
  schemas.channels (schemas.mkCreate "a@b.c" "hi" [SMS; EMAIL] []) ≠ []
  ∧ channel_value <$> schemas.channels (schemas.mkCreate "a@b.c" "hi" [SMS; EMAIL] [])
    = ["sms"; "email"].
Proof.
  destruct (validate_sound (mkBody "a@b.c" "hi" (Some ["sms"; "email"]) None)
              (schemas.mkCreate "a@b.c" "hi" [SMS; EMAIL] []) eq_refl)
    as (_ & _ & _ & H1 & _ & H2).
  split; [exact H1 | exact H2].
Defined.

Lemma get_route_answers_witness :
  get_notification_route 9 after_mock_send = (404, None)
  ∧ ∃ resp, get_notification_route 7 after_mock_send = (200, Some resp)
            ∧ responses.status resp = SENT.
Proof.
  split.
  - exact (get_route_answers after_mock_send 9 after_mock_send_reachable).
  - destruct (get_route_answers after_mock_send 7 after_mock_send_reachable)
      as (resp & H1 & _ & _ & _ & H2 & _).
    exists resp. split; [exact H1|].
    destruct (responses.status resp); [discriminate H2 | reflexivity | discriminate H2].
Defined.

Lemma create_then_get_witness :
  status_code
    (create_notification settings_mock smtp_down redis_up 7
       (mkBody "a@b.c" "hi" (Some ["email"]) None) empty_world).1 = 500
  ∧ ∃ resp,
      get_notification_route 7
        (create_notification settings_mock smtp_down redis_up 7
           (mkBody "a@b.c" "hi" (Some ["email"]) None) empty_world).2
      = (200, Some resp).
Proof.
  edestruct (create_then_get settings_mock smtp_down redis_up 7
               (mkBody "a@b.c" "hi" (Some ["email"]) None) email_only empty_world)
    as (Hpost & _ & resp & _ & Hget).
  - apply rtc_refl.
  - reflexivity.
  - vm_compute. reflexivity.
  - rewrite Hpost. split; [reflexivity|]. exists resp. exact Hget.
Defined.

Lemma create_records_an_attempt_witness :
  attempts_of 7
    (create_and_send (NotificationService_init (settings_smtp 3) smtp_down redis_up) 7
       email_only empty_world).2 ≠ [].
Proof.
  exact (proj1 (create_records_an_attempt (settings_smtp 3) smtp_down redis_up 7
                  (mkBody "a@b.c" "hi" (Some ["email"]) None) email_only empty_world
                  eq_refl eq_refl)).
Defined.

Lemma mock_mode_sends_first_witness :
  ∃ n w',
    create_and_send (NotificationService_init settings_mock smtp_down redis_down) 7
      email_only empty_world = (Ok n, w')
    ∧ status n = status_value SENT
    ∧ channel_used n = Some (channel_value EMAIL).
Proof.
  destruct (mock_mode_sends_first settings_mock smtp_down redis_down 7 email_only
              EMAIL [] empty_world eq_refl eq_refl eq_refl)
    as (n & w' & H1 & H2 & H3 & _).
  exists n, w'. split; [exact H1|]. split; [exact H2 | exact H3].
Defined.

Lemma sent_is_final_witness :
  ∃ n,
    notifications after_mock_send !! 7%N = Some n
    ∧ notifications
        (retry_notification (settings_smtp 3) (failing_email_service redis_up) 7
           [EMAIL] 1 after_mock_send).2 !! 7%N = Some n
    ∧ attempts_of 7
        (retry_notification (settings_smtp 3) (failing_email_service redis_up) 7
           [EMAIL] 1 after_mock_send).2
      = attempts_of 7 after_mock_send.
Proof.
  eexists. split; [vm_compute; reflexivity|].
  apply (sent_is_final 7 after_mock_send
           (retry_notification (settings_smtp 3) (failing_email_service redis_up) 7
              [EMAIL] 1 after_mock_send).2).
  - apply reachable_well_keyed, after_mock_send_reachable.
  - apply rtc_once. apply step_retry.
  - vm_compute. reflexivity.
  - reflexivity.
Defined.

Lemma logs_only_grow_witness :
  append_only after_first_round
    (retry_notification (settings_smtp 3) (failing_email_service redis_up) 7
       [EMAIL] 1 after_first_round).2.
Proof.
  apply (logs_only_grow after_first_round _
           (reachable_well_keyed after_first_round after_first_round_reachable)).
  apply rtc_once. apply step_retry.
Defined.

Lemma reachable_attempts_sound_witness : attempts_sound after_first_round.
Proof. exact (reachable_attempts_sound after_first_round after_first_round_reachable). Defined.

Lemma reachable_queue_sound_witness : queue_sound after_first_round.
Proof. exact (reachable_queue_sound after_first_round after_first_round_reachable). Defined.

Lemma retry_round_outcome_witness :
  (∃ sent w',
      retry_notification settings_mock
        (NotificationService_init settings_mock smtp_down redis_up) 7 [EMAIL] 1 one_pending
        = (Ok tt, w')
      ∧ notifications w' !! 7%N = Some sent
      ∧ status sent = status_value SENT
      ∧ channel_used sent = Some (channel_value EMAIL)
      ∧ stream w' = stream one_pending)
  ∧ stream (retry_notification (settings_smtp 3) (failing_email_service redis_up) 7
              [EMAIL] 3 one_pending).2
    = stream one_pending ++ [mkPayload 7 ["email"] 1].
Proof.
  split.
  - apply (proj1 (retry_round_outcome settings_mock
                    (NotificationService_init settings_mock smtp_down redis_up) 7
                    [EMAIL] 1 one_pending pending_row eq_refl eq_refl
                    ltac:(discriminate))
             [] EMAIL [] eq_refl eq_refl eq_refl).
  - apply (proj2 (retry_round_outcome (settings_smtp 3) (failing_email_service redis_up) 7
                    [EMAIL] 3 one_pending pending_row eq_refl eq_refl
                    ltac:(discriminate))
             eq_refl eq_refl eq_refl).
Defined.

Lemma unacked_stays_pending_witness :
  0 ∈ pending
        (retry_worker_loop (settings_smtp 3) smtp_down (λ _, false) redis_up 3
           (set_group 1 [0] after_first_round)).2.
Proof.
  apply (unacked_stays_pending (settings_smtp 3) smtp_down (λ _, false) redis_up 3
           (set_group 1 [0] after_first_round)).
  - repeat constructor.
  - left.
Defined.

Lemma worker_runs_no_round_witness :
  notifications (retry_worker_turn settings_mock smtp_down redis_up after_first_round).2
    = notifications after_first_round
  ∧ delivered (retry_worker_turn settings_mock smtp_down redis_up after_first_round).2 = 1
  ∧ pending (retry_worker_turn settings_mock smtp_down redis_up after_first_round).2 = [0].
Proof.
  destruct (worker_runs_no_round settings_mock smtp_down redis_up after_first_round)
    as (_ & (_ & _ & Hrows & _) & _ & Hturn).
  split; [exact Hrows|].
  exact (Hturn (mkPayload 7 ["email"] 1) eq_refl eq_refl).
Defined.
